(** * SketchSpace server: board persistence and live session relay

    A shallow embedding of [index.js]: the board endpoints
    ([PUT /board/save/:roomId], [POST /board/invite],
    [DELETE /board/delete/:roomId], [GET /board/:roomId]) over a model of the
    [boards] collection, and the Socket.IO handlers ([join-room],
    [drawing-update], [mouse-move]) over a model of the room registry. *)

From stdpp Require Import gmap strings list fin_maps fin_sets.

Open Scope string_scope.
Open Scope list_scope.

(** ** Stored values

    What a field of a stored document can hold.  Drawing primitives arrive as
    JSON and are moved without being inspected; numbers are kept as
    integers. *)

#[warnings="-register-all"]
Inductive value :=
  | VNull
  | VBool (b : bool)
  | VNum (n : Z)
  | VStr (s : string)
  | VDate (t : Z)
  | VArr (l : list value)
  | VObj (kvs : list (string * value)).

Global Instance value_eq_dec : EqDecision value.
Proof.
  refine (fix go (x y : value) {struct x} : Decision (x = y) :=
    match x, y with
    | VNull, VNull => left _
    | VBool a, VBool b => cast_if (decide (a = b))
    | VNum a, VNum b => cast_if (decide (a = b))
    | VStr a, VStr b => cast_if (decide (a = b))
    | VDate a, VDate b => cast_if (decide (a = b))
    | VArr a, VArr b => cast_if (@decide (a = b) (@list_eq_dec _ go a b))
    | VObj a, VObj b =>
        cast_if (@decide (a = b) (@list_eq_dec _ (@prod_eq_dec _ _ _ go) a b))
    | _, _ => right _
    end); congruence.
Defined.

(** ** The document store

    The part of the MongoDB driver that [index.js] calls on
    [boardCollection]: [findOne], [updateOne] with the operators [$set],
    [$setOnInsert] and [$addToSet] and the [upsert] option, and [deleteOne],
    each with a one-field equality filter.  A document is a finite map from
    field names to values; a collection is the list of its documents in
    natural order.  The [_id] the server generates for an inserted document
    is read by no handler and is left out. *)

Module Store.

Abbreviation document := (gmap string value).
Abbreviation collection := (list (gmap string value)).

(** The filter [{ f: v }].  A document matches when its field [f] equals
    [v], or is an array that has [v] as an element; the filter value [null]
    also matches a document without the field. *)
Definition matches (f : string) (v : value) (d : document) : bool :=
  match d !! f with
  | None => bool_decide (v = VNull)
  | Some w =>
      bool_decide (w = v)
      || match w with VArr l => bool_decide (v ∈ l) | _ => false end
  end.

Definition find_first (f : string) (v : value) (c : collection)
  : option (nat * document) :=
  list_find (λ d, matches f v d = true) c.

Definition findOne (f : string) (v : value) (c : collection)
  : option document :=
  snd <$> find_first f v c.

(** An update document with the three operators the handlers use. *)
Record update := Update {
  op_set : list (string * value);
  op_setOnInsert : list (string * value);
  op_addToSet : list (string * value)
}.

Definition apply_set (kvs : list (string * value)) (d : document) : document :=
  foldl (λ d kv, <[kv.1 := kv.2]> d) d kvs.

(** [$addToSet] on one field: creates the array when the field is absent,
    appends when the value is not yet an element, and fails on a field that
    holds something other than an array. *)
Definition add_to_set (f : string) (v : value) (d : document)
  : option document :=
  match d !! f with
  | None => Some (<[f := VArr [v]]> d)
  | Some (VArr l) =>
      Some (if bool_decide (v ∈ l) then d else <[f := VArr (l ++ [v])]> d)
  | Some _ => None
  end.

Definition apply_addToSet (kvs : list (string * value)) (d : document)
  : option document :=
  foldl (λ od kv, od ≫= add_to_set kv.1 kv.2) (Some d) kvs.

Definition apply_update (u : update) (inserting : bool) (d : document)
  : option document :=
  let d1 := apply_set (op_set u) d in
  let d2 := if inserting then apply_set (op_setOnInsert u) d1 else d1 in
  apply_addToSet (op_addToSet u) d2.

Record UpdateResult := {
  matchedCount : nat;
  modifiedCount : nat;
  upsertedCount : nat
}.

Record DeleteResult := { deletedCount : nat }.

(** A driver call either resolves with a result and the new collection or
    rejects with a write error, leaving the collection as it was. *)
Inductive outcome (A : Type) :=
  | Resolved (a : A)
  | Rejected.
Arguments Resolved {A} a.
Arguments Rejected {A}.

Definition updateOne (f : string) (v : value) (u : update) (upsert : bool)
    (c : collection) : outcome (UpdateResult * collection) :=
  match find_first f v c with
  | Some (i, d) =>
      match apply_update u false d with
      | Some d' =>
          Resolved ({| matchedCount := 1;
                       modifiedCount := if bool_decide (d' = d) then 0 else 1;
                       upsertedCount := 0 |},
                    <[i := d']> c)
      | None => Rejected
      end
  | None =>
      if upsert then
        match apply_update u true {[ f := v ]} with
        | Some d' =>
            Resolved ({| matchedCount := 0; modifiedCount := 0;
                         upsertedCount := 1 |},
                      c ++ [d'])
        | None => Rejected
        end
      else
        Resolved ({| matchedCount := 0; modifiedCount := 0;
                     upsertedCount := 0 |}, c)
  end.

Definition deleteOne (f : string) (v : value) (c : collection)
  : DeleteResult * collection :=
  match find_first f v c with
  | Some (i, _) => ({| deletedCount := 1 |}, delete i c)
  | None => ({| deletedCount := 0 |}, c)
  end.

End Store.

(** ** The board endpoints *)

Module Board.
Import Store.

(** [req.body] of [PUT /board/save/:roomId]; [None] is a field the client
    did not send, which destructuring binds to [undefined]. *)
Record SaveBody := {
  name : option string;
  elements : option (list value);
  userEmail : option string
}.

(** [req.body] of [POST /board/invite]. *)
Record InviteBody := {
  roomId : option string;
  inviteeEmail : option string
}.

(** The driver writes [undefined] as [null]. *)
Definition str_or_null (o : option string) : value :=
  match o with Some s => VStr s | None => VNull end.

Definition arr_or_null (o : option (list value)) : value :=
  match o with Some l => VArr l | None => VNull end.

(** [app.get('/board/:roomId')] *)
Definition getBoard (id : string) (boards : collection) : option document :=
  findOne "roomId" (VStr id) boards.

(** [app.put('/board/save/:roomId')]; [now] is the value of [new Date()]. *)
Definition save (id : string) (body : SaveBody) (now : Z)
    (boards : collection) : outcome (UpdateResult * collection) :=
  let updateDoc :=
    {| op_set := [("name", str_or_null (name body));
                  ("elements", arr_or_null (elements body));
                  ("lastModified", VDate now)];
       op_setOnInsert := [("owner", str_or_null (userEmail body));
                          ("collaborators", VArr [])];
       op_addToSet := [] |} in
  updateOne "roomId" (VStr id) updateDoc true boards.

(** [app.post('/board/invite')] *)
Definition invite (body : InviteBody) (boards : collection)
  : outcome (UpdateResult * collection) :=
  updateOne "roomId" (str_or_null (roomId body))
    {| op_set := []; op_setOnInsert := [];
       op_addToSet := [("collaborators", str_or_null (inviteeEmail body))] |}
    false boards.

(** [app.delete('/board/delete/:roomId')] *)
Definition delete (id : string) (boards : collection)
  : DeleteResult * collection :=
  deleteOne "roomId" (VStr id) boards.

End Board.

(** ** Request histories

    The store a sequence of board requests leaves behind, starting from the
    empty collection.  A request whose driver call rejects leaves the
    collection as it was. *)

Module History.
Import Store.

Inductive request :=
  | Save (id : string) (body : Board.SaveBody) (now : Z)
  | Invite (body : Board.InviteBody)
  | Delete (id : string).

Definition settle (o : outcome (UpdateResult * collection))
    (boards : collection) : collection :=
  match o with
  | Resolved (_, boards') => boards'
  | Rejected => boards
  end.

Definition handle (boards : collection) (r : request) : collection :=
  match r with
  | Save id body now => settle (Board.save id body now boards) boards
  | Invite body => settle (Board.invite body boards) boards
  | Delete id => (Board.delete id boards).2
  end.

Definition run (rs : list request) : collection := foldl handle [] rs.

(** Some request of the history is a save for room [id]. *)
Definition saved (id : string) (rs : list request) : Prop :=
  ∃ body now, Save id body now ∈ rs.

(** What every record of a store reached by requests looks like: its
    [roomId] is a string, it has an [owner] field, and its [collaborators]
    field is an array without repetition; no two records share a
    [roomId]. *)
Definition board_ok (d : document) : Prop :=
  (∃ id, d !! "roomId" = Some (VStr id)) ∧
  is_Some (d !! "owner") ∧
  ∃ l, d !! "collaborators" = Some (VArr l) ∧ NoDup l.

Definition well_formed (boards : collection) : Prop :=
  Forall board_ok boards ∧ NoDup ((λ d : document, d !! "roomId") <$> boards).

End History.

(** ** The live session

    The Socket.IO side of [index.js].  A socket is known by its id; a room is
    a set of socket ids.  As in Socket.IO 4, a socket enters the room named
    by its own id when it connects, [socket.join] adds it to a room,
    [socket.to(room).emit] writes a packet to the sockets of the room that
    are not in the room named by the sender's id, a [volatile] emit skips
    the sockets whose transport is not writable, and a socket leaves all its
    rooms when it disconnects.  The record keeps, next to the rooms, the
    packets written to each socket, oldest first. *)

Module Session.

Inductive packet :=
  | ReceiveDrawing (elements : value)
  | ReceiveMouse (pointer button : value) (socketId : string) (user : value).

Record io := {
  rooms : gmap string (gset string);
  written : gmap string (list packet)
}.

Definition membersOf (room : string) (st : io) : gset string :=
  default ∅ (rooms st !! room).

Definition received (c : string) (st : io) : list packet :=
  default [] (written st !! c).

Definition join (c room : string) (st : io) : io :=
  {| rooms := <[room := {[c]} ∪ membersOf room st]> (rooms st);
     written := written st |}.

Definition leaveAll (c : string) (st : io) : io :=
  {| rooms := (λ members, members ∖ {[c]}) <$> rooms st;
     written := written st |}.

Definition write (p : packet) (c : string)
    (w : gmap string (list packet)) : gmap string (list packet) :=
  <[c := default [] (w !! c) ++ [p]]> w.

(** [socket.to(room)] of the socket [sender]: the broadcast goes to the
    sockets of [room] and excepts the room named by the sender's id, that
    is every socket in that room.  A connected socket is in the room of its
    own id, which is how the sender is left out; the sender is written as
    excepted outright, which is the same for every socket that can send. *)
Definition to (sender room : string) (st : io) : gset string :=
  membersOf room st ∖ ({[sender]} ∪ membersOf sender st).

Definition emit (targets : list string) (p : packet) (st : io) : io :=
  {| rooms := rooms st;
     written := foldr (write p) (written st) targets |}.

(** [io.on('connection', ...)]: the socket is in its own room when the
    handlers are registered. *)
Definition connection (c : string) (st : io) : io := join c c st.

(** [socket.on('join-room', ...)] *)
Definition join_room (c roomId : string) (st : io) : io := join c roomId st.

(** [socket.on('drawing-update', ...)] with [data = { roomId, elements }]. *)
Definition drawing_update (c roomId : string) (data_elements : value)
    (st : io) : io :=
  emit (elements (to c roomId st)) (ReceiveDrawing data_elements) st.

(** [socket.on('mouse-move', ...)] with
    [data = { roomId, pointer, button, user }]; [writable] tells which
    transports take the volatile packet. *)
Definition mouse_move (c roomId : string) (pointer button user : value)
    (writable : string → bool) (st : io) : io :=
  emit (filter (λ t, writable t = true) (elements (to c roomId st)))
       (ReceiveMouse pointer button c user) st.

(** The transport of [c] closes. *)
Definition disconnect (c : string) (st : io) : io := leaveAll c st.

Definition start : io := {| rooms := ∅; written := ∅ |}.

End Session.

(** ** A small history

    One board, saved by its creator, saved again by somebody else, then
    shared with a third user. *)

Module Scenario.
Import Store.

Definition shape1 : value :=
  VObj [("type", VStr "rectangle"); ("x", VNum 10); ("y", VNum 20)].

Definition first_save : Board.SaveBody :=
  {| Board.name := Some "Untitled"; Board.elements := Some [];
     Board.userEmail := Some "a@x.com" |}.

Definition second_save : Board.SaveBody :=
  {| Board.name := Some "Untitled"; Board.elements := Some [shape1];
     Board.userEmail := Some "b@x.com" |}.

Definition invitation : Board.InviteBody :=
  {| Board.roomId := Some "r1"; Board.inviteeEmail := Some "c@x.com" |}.

(** The record the first save creates at time [1]. *)
Definition first_record : document :=
  <["collaborators" := VArr []]>
    (<["owner" := VStr "a@x.com"]>
       (<["lastModified" := VDate 1]>
          (<["elements" := VArr []]>
             (<["name" := VStr "Untitled"]> {["roomId" := VStr "r1"]})))).

Definition after_first_save : collection :=
  History.run [History.Save "r1" first_save 1].

Definition after_invitation : collection :=
  History.run [History.Save "r1" first_save 1;
               History.Save "r1" second_save 2;
               History.Invite invitation].

(** Requests that leave a field out. *)
Definition nameless_save : Board.SaveBody :=
  {| Board.name := None; Board.elements := Some [];
     Board.userEmail := Some "a@x.com" |}.

Definition anonymous_invitation : Board.InviteBody :=
  {| Board.roomId := Some "r1"; Board.inviteeEmail := None |}.

(** Two clients connect and join room [r1]. *)
Definition two_in_room : Session.io :=
  Session.join_room "B" "r1"
    (Session.join_room "A" "r1"
       (Session.connection "B" (Session.connection "A" Session.start))).

(** A first save that does not say who sends it, and the record it
    creates at time [1]. *)
Definition unsigned_save : Board.SaveBody :=
  {| Board.name := Some "Untitled"; Board.elements := Some [];
     Board.userEmail := None |}.

(** The record of room [r1] when the history is over. *)
Definition final_record : document :=
  <["collaborators" := VArr [VStr "c@x.com"]]>
    (<["lastModified" := VDate 2]>
       (<["elements" := VArr [shape1]]> first_record)).


End Scenario.

(** ** Listing the boards of a user

    [app.get('/allBoards/:email')]: the boards whose [owner] is the address
    or whose [collaborators] include it, each without its [elements]. *)

Module Listing.
Import Store.

(** The condition [{ f: { $in: vs } }]: the field equals one of [vs], or is
    an array with one of [vs] among its elements; [null] among [vs] also
    matches a document without the field. *)
Definition matches_in (f : string) (vs : list value) (d : document) : bool :=
  match d !! f with
  | None => bool_decide (VNull ∈ vs)
  | Some w =>
      bool_decide (w ∈ vs)
      || match w with
         | VArr l => bool_decide (Exists (λ v, v ∈ l) vs)
         | _ => false
         end
  end.

(** The query [{ $or: [{ owner: email }, { collaborators: { $in: [email] } }] }]. *)
Definition query (email : string) (d : document) : bool :=
  matches "owner" (VStr email) d
  || matches_in "collaborators" [VStr email] d.

(** [.project({ elements: 0 })] *)
Definition project (d : document) : document := delete "elements" d.

Definition allBoards (email : string) (boards : collection) : collection :=
  project <$> filter (λ d, query email d = true) boards.

(** The listing for [email] shows room [R]. *)
Definition lists (email R : string) (boards : collection) : Prop :=
  ∃ p, p ∈ allBoards email boards ∧ p !! "roomId" = Some (VStr R).

End Listing.

(** ** The room a board request is about *)

Module Requests.

Definition room_of (r : History.request) : option string :=
  match r with
  | History.Save id _ _ => Some id
  | History.Invite body => Board.roomId body
  | History.Delete id => Some id
  end.

(** The store after more requests. *)
Definition continue (boards : Store.collection) (rs : list History.request)
  : Store.collection :=
  foldl History.handle boards rs.

End Requests.

(** ** User profiles

    [app.put('/user/sync')] on the [users] collection. *)

Module Users.
Import Store.

(** [req.body]; [None] is a field the client did not send. *)
Record SyncBody := {
  name : option string;
  email : option string;
  photoURL : option string
}.

(** [now] is the value of [new Date()]. *)
Definition sync (user : SyncBody) (now : Z) (users : collection)
  : outcome (UpdateResult * collection) :=
  let filter := Board.str_or_null (email user) in
  let updateDoc :=
    {| op_set := [("name", Board.str_or_null (name user));
                  ("email", Board.str_or_null (email user));
                  ("photoURL", Board.str_or_null (photoURL user));
                  ("lastLogin", VDate now)];
       op_setOnInsert := [];
       op_addToSet := [] |} in
  updateOne "email" filter updateDoc true users.

(** The [users] collection after a sequence of sync requests, from empty. *)
Definition handle (users : collection) (r : SyncBody * Z) : collection :=
  History.settle (sync r.1 r.2 users) users.

Definition run (rs : list (SyncBody * Z)) : collection := foldl handle [] rs.

(** What holds of a [users] collection reached by syncs: every record has
    an [email] that is a string or [null], and no two records share it. *)
Definition users_ok (c : collection) : Prop :=
  Forall (λ d : document, ∃ e, d !! "email" = Some (Board.str_or_null e)) c ∧
  NoDup ((λ d : document, d !! "email") <$> c).

End Users.

(** ** Session traffic

    What the sockets do, one event after the other, from a server that has
    just started. *)

Module Traffic.
Import Session.

Inductive event :=
  | Connect (c : string)
  | JoinRoom (c roomId : string)
  | DrawingUpdate (c roomId : string) (data_elements : value)
  | MouseMove (c roomId : string) (pointer button user : value)
      (writable : string → bool)
  | Disconnect (c : string).

Definition step (st : io) (e : event) : io :=
  match e with
  | Connect c => connection c st
  | JoinRoom c roomId => join_room c roomId st
  | DrawingUpdate c roomId data_elements =>
      drawing_update c roomId data_elements st
  | MouseMove c roomId pointer button user writable =>
      mouse_move c roomId pointer button user writable st
  | Disconnect c => disconnect c st
  end.

Definition run (es : list event) : io := foldl step start es.

(** The event puts socket [c] into a room. *)
Definition enters (c : string) (e : event) : Prop :=
  match e with
  | Connect c' => c' = c
  | JoinRoom c' _ => c' = c
  | _ => False
  end.

End Traffic.

(** ** Sample profiles *)

Module Profiles.

Definition ann : Users.SyncBody :=
  {| Users.name := Some "Ann"; Users.email := Some "a@x.com";
     Users.photoURL := Some "https://x.com/a.png" |}.

Definition ann_renamed : Users.SyncBody :=
  {| Users.name := Some "Ann B."; Users.email := Some "a@x.com";
     Users.photoURL := None |}.

Definition bob : Users.SyncBody :=
  {| Users.name := Some "Bob"; Users.email := Some "b@x.com";
     Users.photoURL := None |}.

(** A request without an email. *)
Definition nobody : Users.SyncBody :=
  {| Users.name := Some "Guest"; Users.email := None; Users.photoURL := None |}.

(** The profile the first sync of [ann] creates at time [1]. *)
Definition ann_profile : Store.document :=
  <["lastLogin" := VDate 1]>
    (<["photoURL" := VStr "https://x.com/a.png"]>
       (<["email" := VStr "a@x.com"]>
          (<["name" := VStr "Ann"]> {["email" := VStr "a@x.com"]}))).

End Profiles.

(** ** Generated content

    [app.post('/generate')] and [app.post('/chatbot/generate')].  The model
    behind [generateContent] and the parser [JSON.parse] are outside the
    program and are taken as given; what the handlers do around them is
    modelled here.  A text whose characters the code inspects is the list
    of its UTF-16 code units. *)

Module Generate.

Abbreviation text := (list N).

Definition of_string (s : string) : text :=
  Ascii.N_of_ascii <$> String.list_ascii_of_string s.

(** Three backticks, and three backticks followed by [json]. *)
Definition fence : text := of_string "```".
Definition json_fence : text := of_string "```json".

Definition starts_with (pattern s : text) : bool :=
  bool_decide (take (length pattern) s = pattern).

(** [text.replace(/```json|```/g, "")]: scanning from the left, a match of
    the first alternative, else of the second, is dropped and the scan
    goes on behind it; any other character is kept.  [skip] counts the
    characters of a match still to drop. *)
Fixpoint replace_from (skip : nat) (s : text) : text :=
  match s with
  | [] => []
  | c :: rest =>
      match skip with
      | S k => replace_from k rest
      | O =>
          if starts_with json_fence s then replace_from 6 rest
          else if starts_with fence s then replace_from 2 rest
          else c :: replace_from 0 rest
      end
  end.

Definition replace_fences (s : text) : text := replace_from 0 s.

(** The code units [String.prototype.trim] removes: white space and line
    terminators. *)
Definition white_space : list N :=
  [9; 10; 11; 12; 13; 32; 160; 5760; 8192; 8193; 8194; 8195; 8196; 8197;
   8198; 8199; 8200; 8201; 8202; 8232; 8233; 8239; 8287; 12288; 65279]%N.

Definition is_space (u : N) : bool := bool_decide (u ∈ white_space).

Fixpoint trimStart (s : text) : text :=
  match s with
  | c :: rest => if is_space c then trimStart rest else s
  | [] => []
  end.

Definition trimEnd (s : text) : text := reverse (trimStart (reverse s)).

Definition trim (s : text) : text := trimEnd (trimStart s).

(** [text.replace(/```json|```/g, "").trim()] *)
Definition cleanJson (t : text) : text := trim (replace_fences t).

(** The pattern occurs somewhere in the text. *)
Fixpoint occurs (pattern s : text) : bool :=
  starts_with pattern s
  || match s with
     | [] => false
     | _ :: rest => occurs pattern rest
     end.

(** The text is empty or starts with something else than white space. *)
Definition starts_clean (s : text) : Prop :=
  match s with [] => True | c :: _ => is_space c = false end.

(** Whether a value counts as true in a condition. *)
Definition truthy (v : value) : bool :=
  match v with
  | VNull => false
  | VBool b => b
  | VNum n => negb (bool_decide (n = 0%Z))
  | VStr s => negb (bool_decide (s = ""))
  | VDate _ | VArr _ | VObj _ => true
  end.

(** [!prompt], for a field of the body that may be absent. *)
Definition missing (prompt : option value) : bool :=
  match prompt with
  | None => true
  | Some v => negb (truthy v)
  end.

(** The property [key] of an object; of a repeated key the last entry
    counts. *)
Fixpoint property (key : string) (kvs : list (string * value)) : option value :=
  match kvs with
  | [] => None
  | (k, v) :: rest =>
      match property key rest with
      | Some w => Some w
      | None => if decide (k = key) then Some v else None
      end
  end.

(** [Array.isArray(parsed) ? parsed : (parsed.elements || [])]; reading a
    property of [null] throws, which is [None]. *)
Definition elements_of (parsed : value) : option value :=
  match parsed with
  | VArr _ => Some parsed
  | VNull => None
  | VObj kvs =>
      match property "elements" kvs with
      | Some v => Some (if truthy v then v else VArr [])
      | None => Some (VArr [])
      end
  | _ => Some (VArr [])
  end.

(** What a handler answers: [200] with [{ elements }] or [{ text }], [400]
    with [Prompt is required.], or [500]. *)
Inductive reply :=
  | Elements (elements : value)
  | Text (t : text)
  | PromptRequired
  | Failed.

Definition status (r : reply) : nat :=
  match r with
  | Elements _ | Text _ => 200
  | PromptRequired => 400
  | Failed => 500
  end.

Section handlers.

(** What the model answers to the request made for a prompt; [None] when
    the call throws. *)
Variable generateContent : value → option text.

(** [None] when [JSON.parse] throws. *)
Variable JSON_parse : text → option value.

(** [app.post('/generate')] *)
Definition generate (prompt : option value) : reply :=
  match prompt with
  | None => PromptRequired
  | Some p =>
      if truthy p then
        match generateContent p with
        | None => Failed
        | Some t =>
            match JSON_parse (cleanJson t) with
            | None => Failed
            | Some parsed =>
                match elements_of parsed with
                | None => Failed
                | Some elements => Elements elements
                end
            end
        end
      else PromptRequired
  end.

(** [app.post('/chatbot/generate')] *)
Definition chatbot_generate (prompt : option value) : reply :=
  match prompt with
  | None => PromptRequired
  | Some p =>
      if truthy p then
        match generateContent p with
        | None => Failed
        | Some t => Text t
        end
      else PromptRequired
  end.

End handlers.

(** A model that always answers [t], and a parser that reads [body] as [v]
    and nothing else, for trying the handlers out. *)
Definition always (t : text) : value → option text := λ _, Some t.

Definition reads (body : text) (v : value) : text → option value :=
  λ t, if decide (t = body) then Some v else None.

(** A fenced answer: the array [[1, 2]] in a [json] block. *)
Definition fenced_answer : text :=
  json_fence ++ [10%N] ++ of_string "[1, 2]" ++ [10%N] ++ fence.

End Generate.

(** * Properties *)

(** ** Facts about the store operations *)

Section store_facts.
Import Store.
Implicit Types (c : collection) (d : document) (f : string) (v : value).

Lemma find_first_Some f v c i d :
  find_first f v c = Some (i, d) ↔
  c !! i = Some d ∧ matches f v d = true ∧
  ∀ j y, c !! j = Some y → j < i → matches f v y ≠ true.
Proof. apply (list_find_Some (λ d, matches f v d = true)). Qed.

Lemma find_first_None f v c :
  find_first f v c = None ↔ Forall (λ d, matches f v d ≠ true) c.
Proof. apply (list_find_None (λ d, matches f v d = true)). Qed.

Lemma findOne_Some f v c d :
  findOne f v c = Some d ↔ ∃ i, find_first f v c = Some (i, d).
Proof.
  unfold findOne. destruct (find_first f v c) as [[i d0]|]; simpl.
  - split; [intros [= ->]; eauto | intros [j [= _ ->]]; done].
  - split; [done | intros [j ?]; done].
Qed.

Lemma findOne_None f v c : findOne f v c = None ↔ find_first f v c = None.
Proof. unfold findOne. destruct (find_first f v c); simpl; split; done. Qed.

Lemma matches_same_field f v d d' :
  d' !! f = d !! f → matches f v d' = matches f v d.
Proof. unfold matches. by intros ->. Qed.

Lemma matches_str f id r d :
  d !! f = Some (VStr r) → matches f (VStr id) d = bool_decide (r = id).
Proof.
  unfold matches. intros ->. rewrite orb_false_r.
  apply bool_decide_ext. split; congruence.
Qed.

Lemma matches_null_str f r d :
  d !! f = Some (VStr r) → matches f VNull d = false.
Proof. unfold matches. intros ->. done. Qed.

(** Replacing the first match by a document that still matches keeps it the
    first match. *)
Lemma find_first_replace f v c i d d' :
  find_first f v c = Some (i, d) → matches f v d' = true →
  find_first f v (<[i := d']> c) = Some (i, d').
Proof.
  intros (Hi & _ & Hleast)%find_first_Some Hm.
  apply (list_find_insert_Some (λ d, matches f v d = true)). right; left.
  split_and!; eauto using lookup_lt_Some.
Qed.

(** A matching document appended to a collection without a match is the
    first match. *)
Lemma find_first_append f v c d' :
  find_first f v c = None → matches f v d' = true →
  find_first f v (c ++ [d']) = Some (length c, d').
Proof.
  intros Hnone Hm. unfold find_first in *.
  rewrite list_find_app_r by done. simpl.
  rewrite decide_True by done. done.
Qed.

End store_facts.

(** ** Facts about the board endpoints *)

Section board_facts.
Import Store.
Implicit Types (c : collection) (d : document).

(** The document a save leaves where a record existed. *)
Lemma save_existing id body now c i d :
  find_first "roomId" (VStr id) c = Some (i, d) →
  let d' := <["lastModified" := VDate now]>
              (<["elements" := Board.arr_or_null (Board.elements body)]>
                 (<["name" := Board.str_or_null (Board.name body)]> d)) in
  Board.save id body now c =
    Resolved ({| matchedCount := 1;
                 modifiedCount := if bool_decide (d' = d) then 0 else 1;
                 upsertedCount := 0 |}, <[i := d']> c)
  ∧ find_first "roomId" (VStr id) (<[i := d']> c) = Some (i, d').
Proof.
  intros Hf d'. split.
  - unfold Board.save, updateOne. rewrite Hf. done.
  - apply find_first_replace with d; [done|].
    apply find_first_Some in Hf as (_ & Hm & _).
    etrans; [|exact Hm]. apply matches_same_field. unfold d'. by simplify_map_eq.
Qed.

(** The document a save creates where no record existed. *)
Lemma save_fresh id body now c :
  find_first "roomId" (VStr id) c = None →
  let d' := <["collaborators" := VArr []]>
              (<["owner" := Board.str_or_null (Board.userEmail body)]>
                 (<["lastModified" := VDate now]>
                    (<["elements" := Board.arr_or_null (Board.elements body)]>
                       (<["name" := Board.str_or_null (Board.name body)]>
                          {["roomId" := VStr id]})))) in
  Board.save id body now c =
    Resolved ({| matchedCount := 0; modifiedCount := 0; upsertedCount := 1 |},
              c ++ [d'])
  ∧ find_first "roomId" (VStr id) (c ++ [d']) = Some (length c, d').
Proof.
  intros Hf d'. split.
  - unfold Board.save, updateOne. rewrite Hf. done.
  - apply find_first_append; [done|].
    rewrite (matches_str _ _ id); [by rewrite bool_decide_true|].
    unfold d'. by simplify_map_eq.
Qed.

(** An invite that finds no record resolves without touching the store. *)
Lemma invite_no_match body c :
  find_first "roomId" (Board.str_or_null (Board.roomId body)) c = None →
  Board.invite body c =
    Resolved ({| matchedCount := 0; modifiedCount := 0; upsertedCount := 0 |}, c).
Proof. intros Hf. unfold Board.invite, updateOne. by rewrite Hf. Qed.

(** An invite on a record whose [collaborators] is an array. *)
Lemma invite_match body c i d l :
  find_first "roomId" (Board.str_or_null (Board.roomId body)) c = Some (i, d) →
  d !! "collaborators" = Some (VArr l) →
  let x := Board.str_or_null (Board.inviteeEmail body) in
  let d' := if bool_decide (x ∈ l) then d
            else <["collaborators" := VArr (l ++ [x])]> d in
  Board.invite body c =
    Resolved ({| matchedCount := 1;
                 modifiedCount := if bool_decide (d' = d) then 0 else 1;
                 upsertedCount := 0 |}, <[i := d']> c)
  ∧ find_first "roomId" (Board.str_or_null (Board.roomId body)) (<[i := d']> c)
    = Some (i, d').
Proof.
  intros Hf Hl x d'. split.
  - unfold Board.invite, updateOne. rewrite Hf.
    unfold apply_update, apply_addToSet, apply_set, add_to_set. simpl.
    rewrite Hl. done.
  - apply find_first_replace with d; [done|].
    apply find_first_Some in Hf as (_ & Hm & _).
    etrans; [|exact Hm]. apply matches_same_field. unfold d'. case_bool_decide; by simplify_map_eq.
Qed.

End board_facts.

(** ** The store invariant *)

Section invariant.
Import Store History.
Implicit Types (c : collection) (d : document).

Lemma well_formed_nil : well_formed [].
Proof. split; [constructor | simpl; constructor]. Qed.

Lemma well_formed_replace c i d d' :
  well_formed c → c !! i = Some d → d' !! "roomId" = d !! "roomId" →
  board_ok d' → well_formed (<[i := d']> c).
Proof.
  intros [Hok Hnd] Hi Hroom Hd'. split; [by apply Forall_insert|].
  rewrite list_fmap_insert, list_insert_id; [done|].
  rewrite list_lookup_fmap, Hi. simpl. by rewrite Hroom.
Qed.

Lemma well_formed_append c d' id :
  well_formed c → find_first "roomId" (VStr id) c = None →
  d' !! "roomId" = Some (VStr id) → board_ok d' → well_formed (c ++ [d']).
Proof.
  intros [Hok Hnd] Hnone Hroom Hd'. split.
  - apply Forall_app. split; [done | by constructor].
  - rewrite fmap_app. apply NoDup_app. split_and!; [done| |].
    + intros o (d & -> & Hd)%list_elem_of_fmap Hin.
      apply list_elem_of_singleton in Hin. rewrite Hroom in Hin.
      apply find_first_None in Hnone.
      rewrite Forall_forall in Hnone. apply (Hnone d Hd).
      rewrite (matches_str _ _ id) by done. by rewrite bool_decide_true.
    + simpl. apply NoDup_singleton.
Qed.

Lemma well_formed_delete c i : well_formed c → well_formed (delete i c).
Proof.
  intros [Hok Hnd]. split; [by apply Forall_delete|].
  rewrite list_fmap_delete. eapply sublist_NoDup; [exact Hnd | apply sublist_delete].
Qed.

Lemma well_formed_lookup c i d : well_formed c → c !! i = Some d → board_ok d.
Proof. intros [Hok _] Hi. eapply Forall_lookup_1; eauto. Qed.

(** In a well-formed store no record answers a filter on [roomId: null]. *)
Lemma well_formed_null c :
  well_formed c → find_first "roomId" VNull c = None.
Proof.
  intros [Hok _]. apply find_first_None.
  eapply Forall_impl; [exact Hok|]. intros d ([id Hid] & _).
  by rewrite (matches_null_str _ id).
Qed.

(** In a well-formed store at most one record answers a [roomId]. *)
Lemma well_formed_unique c i j d1 d2 id :
  well_formed c → c !! i = Some d1 → c !! j = Some d2 →
  matches "roomId" (VStr id) d1 = true → matches "roomId" (VStr id) d2 = true →
  i = j.
Proof.
  intros Hwf Hi Hj H1 H2.
  destruct (well_formed_lookup _ _ _ Hwf Hi) as ([r1 Hr1] & _).
  destruct (well_formed_lookup _ _ _ Hwf Hj) as ([r2 Hr2] & _).
  rewrite (matches_str _ _ r1), bool_decide_eq_true in H1 by done.
  rewrite (matches_str _ _ r2), bool_decide_eq_true in H2 by done.
  subst r1 r2. destruct Hwf as [_ Hnd].
  eapply NoDup_lookup; [exact Hnd|..]; rewrite list_lookup_fmap.
  - rewrite Hi. simpl. by rewrite Hr1.
  - rewrite Hj. simpl. by rewrite Hr2.
Qed.

Lemma handle_well_formed c r : well_formed c → well_formed (handle c r).
Proof.
  intros Hwf. destruct r as [id body now|body|id]; simpl.
  - destruct (find_first "roomId" (VStr id) c) as [[i d]|] eqn:Hf.
    + destruct (save_existing id body now c i d Hf) as [-> _]. simpl.
      apply find_first_Some in Hf as (Hi & _ & _).
      destruct (well_formed_lookup _ _ _ Hwf Hi) as (Hroom & Hown & Hcol).
      eapply well_formed_replace; [done..| |]; [by simplify_map_eq|].
      split_and!; by simplify_map_eq.
    + destruct (save_fresh id body now c Hf) as [-> _]. simpl.
      eapply well_formed_append; [done..| |]; [by simplify_map_eq|].
      split_and!; simplify_map_eq; eauto using NoDup_nil_2.
  - destruct (find_first "roomId" (Board.str_or_null (Board.roomId body)) c)
      as [[i d]|] eqn:Hf.
    + pose proof Hf as (Hi & _ & _)%find_first_Some.
      destruct (well_formed_lookup _ _ _ Hwf Hi) as (Hroom & Hown & l & Hl & Hnd).
      destruct (invite_match body c i d l Hf Hl) as [-> _]. simpl.
      case_bool_decide as Hin.
      * rewrite list_insert_id; done.
      * eapply well_formed_replace; [done..| |]; [by simplify_map_eq|].
        split_and!; simplify_map_eq; [done..|].
        eexists. split; [done|]. apply NoDup_app. split_and!; [done| |].
        -- intros y Hy ->%list_elem_of_singleton. done.
        -- apply NoDup_singleton.
    + by rewrite (invite_no_match body c Hf).
  - unfold Board.delete, deleteOne.
    destruct (find_first "roomId" (VStr id) c) as [[i d]|]; simpl; [|done].
    by apply well_formed_delete.
Qed.

Lemma run_snoc rs r : run (rs ++ [r]) = handle (run rs) r.
Proof. unfold run. apply foldl_snoc. Qed.

Lemma run_well_formed rs : well_formed (run rs).
Proof.
  induction rs as [|r rs IH] using rev_ind; [apply well_formed_nil|].
  rewrite run_snoc. by apply handle_well_formed.
Qed.

End invariant.

(** ** Where the records of a reached store come from *)

Section origin.
Import Store History.
Implicit Types (c : collection) (d : document).

Lemma elem_of_list_insert_inv {A} (l : list A) i x y :
  x ∈ <[i := y]> l → x = y ∨ x ∈ l.
Proof.
  intros [j Hj]%list_elem_of_lookup.
  apply list_lookup_insert_Some in Hj as [(_ & -> & _)|[_ Hj]]; [by left|].
  right. by eapply list_elem_of_lookup_2.
Qed.

(** A record of the store after a request either continues a record that
    was there, with the same [roomId] and [owner], or was created by this
    very request, a save. *)
Lemma handle_origin c r d :
  well_formed c → d ∈ handle c r →
  (∃ d0, d0 ∈ c ∧ d !! "roomId" = d0 !! "roomId" ∧ d !! "owner" = d0 !! "owner")
  ∨ (∃ id body now, r = Save id body now ∧ d !! "roomId" = Some (VStr id) ∧
       d !! "owner" = Some (Board.str_or_null (Board.userEmail body))).
Proof.
  intros Hwf. destruct r as [id body now|body|id]; simpl.
  - destruct (find_first "roomId" (VStr id) c) as [[i d0]|] eqn:Hf.
    + destruct (save_existing id body now c i d0 Hf) as [-> _]. simpl.
      apply find_first_Some in Hf as (Hi & _ & _).
      intros [->|Hd]%elem_of_list_insert_inv; left.
      * exists d0. split; [by eapply list_elem_of_lookup_2|]. by simplify_map_eq.
      * by exists d.
    + destruct (save_fresh id body now c Hf) as [-> _]. simpl.
      intros [Hd| ->%list_elem_of_singleton]%elem_of_app.
      * left. by exists d.
      * right. exists id, body, now. by simplify_map_eq.
  - destruct (find_first "roomId" (Board.str_or_null (Board.roomId body)) c)
      as [[i d0]|] eqn:Hf.
    + pose proof Hf as (Hi & _ & _)%find_first_Some.
      destruct (well_formed_lookup _ _ _ Hwf Hi) as (_ & _ & l & Hl & _).
      destruct (invite_match body c i d0 l Hf Hl) as [-> _]. simpl.
      intros [->|Hd]%elem_of_list_insert_inv; left.
      * exists d0. split; [by eapply list_elem_of_lookup_2|].
        case_bool_decide; by simplify_map_eq.
      * by exists d.
    + rewrite (invite_no_match body c Hf). simpl. intros Hd. left. by exists d.
  - intros Hd. left. exists d. split; [|done].
    revert Hd. unfold Board.delete, deleteOne.
    destruct (find_first "roomId" (VStr id) c) as [[i d0]|]; simpl; [|done].
    apply list_elem_of_delete_inv.
Qed.

Lemma run_origin rs d :
  d ∈ run rs →
  ∃ id body now, Save id body now ∈ rs ∧ d !! "roomId" = Some (VStr id) ∧
    d !! "owner" = Some (Board.str_or_null (Board.userEmail body)).
Proof.
  revert d. induction rs as [|r rs IH] using rev_ind; intros d.
  { unfold run. simpl. by intros ?%elem_of_nil. }
  rewrite run_snoc. intros Hd.
  apply handle_origin in Hd as [(d0 & Hd0 & Hroom & Hown)|(id & body & now & -> & ? & ?)];
    [| |by apply run_well_formed].
  - destruct (IH d0 Hd0) as (id & body & now & Hin & ? & ?).
    exists id, body, now. rewrite Hroom, Hown. split_and!; [|done..].
    apply elem_of_app. by left.
  - exists id, body, now. split_and!; [|done..].
    apply elem_of_app. right. by apply list_elem_of_singleton.
Qed.

(** After a delete no record of a well-formed store answers the [roomId]. *)
Lemma delete_absent c id :
  well_formed c → Board.getBoard id (Board.delete id c).2 = None.
Proof.
  intros Hwf. unfold Board.getBoard, Board.delete, deleteOne.
  destruct (find_first "roomId" (VStr id) c) as [[i d]|] eqn:Hf; simpl.
  - apply findOne_None, find_first_None, Forall_lookup. intros j y Hj Hy.
    apply find_first_Some in Hf as (Hi & Hm & _).
    destruct (decide (j < i)).
    + rewrite list_lookup_delete_lt in Hj by done.
      pose proof (well_formed_unique _ _ _ _ _ _ Hwf Hi Hj Hm Hy). lia.
    + rewrite list_lookup_delete_ge in Hj by lia.
      pose proof (well_formed_unique _ _ _ _ _ _ Hwf Hi Hj Hm Hy). lia.
  - by apply findOne_None.
Qed.

End origin.

(** ** What a save and an invite do to the store *)

Section effects.
Import Store History.
Implicit Types (c boards : collection) (d : document).

(** Every save resolves.  Afterwards the room has a record that carries the
    request's content; on a room without a record the record is new, with
    the requester as owner and no collaborators; on a room with a record
    that record is updated in place and all its other fields are kept. *)
Lemma save_result id body now boards :
  ∃ res boards' d',
    Board.save id body now boards = Resolved (res, boards') ∧
    Board.getBoard id boards' = Some d' ∧
    d' !! "name" = Some (Board.str_or_null (Board.name body)) ∧
    d' !! "elements" = Some (Board.arr_or_null (Board.elements body)) ∧
    d' !! "lastModified" = Some (VDate now) ∧
    match Board.getBoard id boards with
    | None =>
        d' !! "owner" = Some (Board.str_or_null (Board.userEmail body)) ∧
        d' !! "collaborators" = Some (VArr []) ∧
        upsertedCount res = 1 ∧ boards' = boards ++ [d']
    | Some d =>
        (∀ f, f ∉ ["name"; "elements"; "lastModified"] → d' !! f = d !! f) ∧
        matchedCount res = 1 ∧ upsertedCount res = 0 ∧
        ∃ i, boards !! i = Some d ∧ boards' = <[i := d']> boards
    end.
Proof.
  unfold Board.getBoard, findOne.
  destruct (find_first "roomId" (VStr id) boards) as [[i d]|] eqn:Hf; simpl.
  - destruct (save_existing id body now boards i d Hf) as [Hs Hf'].
    eexists _, _, _. split; [exact Hs|]. rewrite Hf'. simpl.
    split_and!; try by simplify_map_eq.
    + intros f Hnot. rewrite !lookup_insert_ne; [done|..];
        intros <-; apply Hnot; set_solver.
    + exists i. by apply find_first_Some in Hf as (? & _).
  - destruct (save_fresh id body now boards Hf) as [Hs Hf'].
    eexists _, _, _. split; [exact Hs|]. rewrite Hf'. simpl.
    split_and!; by simplify_map_eq.
Qed.

(** A second, equal invite finds the store as the first one left it. *)
Lemma invite_again body boards r1 boards1 :
  Board.invite body boards = Resolved (r1, boards1) →
  Board.invite body boards1 =
    Resolved ({| matchedCount := matchedCount r1; modifiedCount := 0;
                 upsertedCount := 0 |}, boards1).
Proof.
  unfold Board.invite, updateOne.
  destruct (find_first _ _ boards) as [[i d]|] eqn:Hf.
  - unfold apply_update, apply_addToSet, apply_set, add_to_set. simpl.
    set (x := Board.str_or_null (Board.inviteeEmail body)).
    assert (∀ d', d' !! "roomId" = d !! "roomId" →
      find_first "roomId" (Board.str_or_null (Board.roomId body))
        (<[i := d']> boards) = Some (i, d')) as Hkeep.
    { intros d' Hroom. apply find_first_replace with d; [done|].
      apply find_first_Some in Hf as (_ & Hm & _).
      etrans; [|exact Hm]. by apply matches_same_field. }
    destruct (d !! "collaborators") as [[| | | | |l|]|] eqn:Hl; try done.
    + destruct (decide (x ∈ l)) as [Hin|Hin].
      * rewrite !(bool_decide_true (x ∈ l)) by done. intros [= <- <-].
        rewrite Hkeep by done. rewrite Hl.
        rewrite (bool_decide_true (x ∈ l)) by done.
        rewrite bool_decide_true by done. by rewrite list_insert_insert_eq.
      * rewrite !(bool_decide_false (x ∈ l)) by done. intros [= <- <-].
        rewrite Hkeep by (by simplify_map_eq). simplify_map_eq.
        rewrite (bool_decide_true (x ∈ l ++ [x])) by set_solver.
        rewrite bool_decide_true by done. by rewrite list_insert_insert_eq.
    + intros [= <- <-]. rewrite Hkeep by (by simplify_map_eq). simplify_map_eq.
      rewrite (bool_decide_true (x ∈ [x])) by set_solver.
      rewrite bool_decide_true by done. by rewrite list_insert_insert_eq.
  - intros [= <- <-]. by rewrite Hf.
Qed.

(** On a well-formed store every invite resolves. *)
Lemma invite_resolves body boards :
  well_formed boards → ∃ r1 boards1, Board.invite body boards = Resolved (r1, boards1).
Proof.
  intros Hwf.
  destruct (find_first "roomId" (Board.str_or_null (Board.roomId body)) boards)
    as [[i d]|] eqn:Hf.
  - pose proof Hf as (Hi & _ & _)%find_first_Some.
    destruct (well_formed_lookup _ _ _ Hwf Hi) as (_ & _ & l & Hl & _).
    destruct (invite_match body boards i d l Hf Hl) as [-> _]. eauto.
  - rewrite (invite_no_match body boards Hf). eauto.
Qed.

End effects.

(** ** The board endpoints: saving *)

Section saving.
Import Store History.

(** Closes a goal [f ∉ [...]] on field names by evaluating it. *)
Local Ltac other_field :=
  intros Hin; apply (bool_decide_pack _) in Hin; vm_compute in Hin; exact Hin.

(** C1. A save on a room without a record creates the record with the
    requester as [owner] and an empty [collaborators]; a save on a room that
    has a record, by whatever identity, leaves [owner] as it is and sets
    [name] and [elements] to the request's. *)
Theorem save_sets_owner_on_first_save_only
    (id : string) (body : Board.SaveBody) (now : Z) (boards : collection) :
  ∃ res boards' d',
    Board.save id body now boards = Resolved (res, boards') ∧
    Board.getBoard id boards' = Some d' ∧
    d' !! "name" = Some (Board.str_or_null (Board.name body)) ∧
    d' !! "elements" = Some (Board.arr_or_null (Board.elements body)) ∧
    match Board.getBoard id boards with
    | None =>
        d' !! "owner" = Some (Board.str_or_null (Board.userEmail body)) ∧
        d' !! "collaborators" = Some (VArr [])
    | Some d => d' !! "owner" = d !! "owner"
    end.
Proof.
  destruct (save_result id body now boards)
    as (res & boards' & d' & Hs & Hg & Hn & He & _ & Hcase).
  exists res, boards', d'. split_and!; [done..|].
  destruct (Board.getBoard id boards) as [d|].
  - destruct Hcase as (Hframe & _). apply Hframe. other_field.
  - by destruct Hcase as (? & ? & _).
Qed.

(** C2. A save on a room that has a record replaces that record in place,
    and the new record differs from the old one in no field other than
    [name], [elements] and [lastModified]: [owner] and [collaborators] are
    what they were. *)
Theorem save_touches_content_fields_only
    (id : string) (body : Board.SaveBody) (now : Z) (boards : collection)
    (d : document) :
  Board.getBoard id boards = Some d →
  ∃ res boards' d' i,
    Board.save id body now boards = Resolved (res, boards') ∧
    boards !! i = Some d ∧ boards' = <[i := d']> boards ∧
    Board.getBoard id boards' = Some d' ∧
    (∀ f, f ∉ ["name"; "elements"; "lastModified"] → d' !! f = d !! f) ∧
    d' !! "owner" = d !! "owner" ∧
    d' !! "collaborators" = d !! "collaborators" ∧
    d' !! "name" = Some (Board.str_or_null (Board.name body)) ∧
    d' !! "elements" = Some (Board.arr_or_null (Board.elements body)) ∧
    d' !! "lastModified" = Some (VDate now).
Proof.
  intros Hd.
  destruct (save_result id body now boards)
    as (res & boards' & d' & Hs & Hg & Hn & He & Ht & Hcase).
  rewrite Hd in Hcase. destruct Hcase as (Hframe & _ & _ & i & Hi & ->).
  exists res, (<[i := d']> boards), d', i.
  split_and!; try done; apply Hframe; other_field.
Qed.

Lemma save_touches_content_fields_only_witness :
  Board.getBoard "r1" Scenario.after_first_save = Some Scenario.first_record ∧
  ∃ res boards' d' i,
    Board.save "r1" Scenario.second_save 2 Scenario.after_first_save
      = Resolved (res, boards') ∧
    Scenario.after_first_save !! i = Some Scenario.first_record ∧
    boards' = <[i := d']> Scenario.after_first_save ∧
    Board.getBoard "r1" boards' = Some d' ∧
    (∀ f, f ∉ ["name"; "elements"; "lastModified"] →
          d' !! f = Scenario.first_record !! f) ∧
    d' !! "owner" = Scenario.first_record !! "owner" ∧
    d' !! "collaborators" = Scenario.first_record !! "collaborators" ∧
    d' !! "name" = Some (Board.str_or_null (Board.name Scenario.second_save)) ∧
    d' !! "elements"
      = Some (Board.arr_or_null (Board.elements Scenario.second_save)) ∧
    d' !! "lastModified" = Some (VDate 2).
Proof.
  split; [vm_compute; reflexivity|].
  apply (save_touches_content_fields_only "r1" Scenario.second_save 2
           Scenario.after_first_save Scenario.first_record).
  vm_compute; reflexivity.
Defined.

(** C10. On a room that has a record, two saves that differ only in the
    requesting identity, made from the same store at the same time, resolve
    with the same result and the same store; the record's [collaborators]
    and [owner] are those of the old record, so the requester is not added
    to the collaborators. *)
Theorem save_on_existing_ignores_requester
    (id : string) (n : option string) (e : option (list value))
    (u1 u2 : option string) (now : Z) (boards : collection) (d : document) :
  Board.getBoard id boards = Some d →
  Board.save id {| Board.name := n; Board.elements := e; Board.userEmail := u1 |}
    now boards
  = Board.save id {| Board.name := n; Board.elements := e; Board.userEmail := u2 |}
      now boards
  ∧ ∃ res boards' d',
      Board.save id
        {| Board.name := n; Board.elements := e; Board.userEmail := u1 |}
        now boards = Resolved (res, boards') ∧
      Board.getBoard id boards' = Some d' ∧
      d' !! "collaborators" = d !! "collaborators" ∧
      d' !! "owner" = d !! "owner".
Proof.
  intros Hd. split.
  - apply findOne_Some in Hd as [i Hf].
    destruct (save_existing id
      {| Board.name := n; Board.elements := e; Board.userEmail := u1 |}
      now boards i d Hf) as [-> _].
    destruct (save_existing id
      {| Board.name := n; Board.elements := e; Board.userEmail := u2 |}
      now boards i d Hf) as [-> _].
    done.
  - destruct (save_result id
      {| Board.name := n; Board.elements := e; Board.userEmail := u1 |}
      now boards) as (res & boards' & d' & Hs & Hg & _ & _ & _ & Hcase).
    rewrite Hd in Hcase. destruct Hcase as (Hframe & _).
    exists res, boards', d'. split_and!; [done..| |]; apply Hframe; other_field.
Qed.

Lemma save_on_existing_ignores_requester_witness :
  Board.getBoard "r1" Scenario.after_first_save = Some Scenario.first_record ∧
  Board.save "r1"
    {| Board.name := Some "Untitled"; Board.elements := Some [Scenario.shape1];
       Board.userEmail := Some "a@x.com" |} 2 Scenario.after_first_save
  = Board.save "r1"
      {| Board.name := Some "Untitled"; Board.elements := Some [Scenario.shape1];
         Board.userEmail := Some "b@x.com" |} 2 Scenario.after_first_save.
Proof.
  split; [vm_compute; reflexivity|].
  apply (save_on_existing_ignores_requester "r1" (Some "Untitled")
           (Some [Scenario.shape1]) (Some "a@x.com") (Some "b@x.com") 2
           Scenario.after_first_save Scenario.first_record).
  vm_compute; reflexivity.
Defined.

End saving.

(** ** The board endpoints: inviting and deleting *)

Section inviting.
Import Store History.

(** C5. Inviting the same identity to the same room a second time changes
    nothing: in any store the second invite leaves the store as the first
    one left it, and when the first resolves the second resolves with the
    same match count and nothing modified; in a store reached by requests
    both resolve, and the [collaborators] of every record stays free of
    repetition. *)
Theorem invite_twice_is_invite_once (body : Board.InviteBody) :
  (∀ boards,
     handle (handle boards (Invite body)) (Invite body)
     = handle boards (Invite body)) ∧
  (∀ boards r1 boards1,
     Board.invite body boards = Resolved (r1, boards1) →
     Board.invite body boards1 =
       Resolved ({| matchedCount := matchedCount r1; modifiedCount := 0;
                    upsertedCount := 0 |}, boards1)) ∧
  (∀ rs, ∃ r1 boards1,
     Board.invite body (run rs) = Resolved (r1, boards1) ∧
     Board.invite body boards1 =
       Resolved ({| matchedCount := matchedCount r1; modifiedCount := 0;
                    upsertedCount := 0 |}, boards1) ∧
     ∀ d l, d ∈ boards1 → d !! "collaborators" = Some (VArr l) → NoDup l).
Proof.
  split_and!.
  - intros boards. simpl.
    destruct (Board.invite body boards) as [[r1 boards1]|] eqn:H1; simpl.
    + by rewrite (invite_again body boards r1 boards1 H1).
    + by rewrite H1.
  - apply invite_again.
  - intros rs.
    destruct (invite_resolves body (run rs) (run_well_formed rs))
      as (r1 & boards1 & H1).
    exists r1, boards1. split_and!; [done|by eapply invite_again|].
    intros d l Hd Hl.
    assert (well_formed (run (rs ++ [Invite body]))) as [Hok _]
      by apply run_well_formed.
    rewrite run_snoc in Hok. simpl in Hok. rewrite H1 in Hok. simpl in Hok.
    rewrite Forall_forall in Hok.
    destruct (Hok d Hd) as (_ & _ & l' & Hl' & Hnd). congruence.
Qed.

Lemma invite_twice_is_invite_once_witness :
  handle (handle Scenario.after_first_save (Invite Scenario.invitation))
    (Invite Scenario.invitation)
  = handle Scenario.after_first_save (Invite Scenario.invitation)
  ∧ ∃ r1 boards1,
      Board.invite Scenario.invitation Scenario.after_first_save
        = Resolved (r1, boards1) ∧
      Board.invite Scenario.invitation boards1 =
        Resolved ({| matchedCount := matchedCount r1; modifiedCount := 0;
                     upsertedCount := 0 |}, boards1).
Proof.
  destruct (invite_twice_is_invite_once Scenario.invitation)
    as (Hsame & Hagain & _).
  split; [apply Hsame|].
  eexists _, _. split; [vm_compute; reflexivity|].
  apply (Hagain Scenario.after_first_save). vm_compute; reflexivity.
Defined.

(** C9. An invite for a room without a record resolves, reports no matched
    document, and leaves the store as it is: no record is created. *)
Theorem invite_without_record_is_noop
    (R : string) (x : option string) (boards : collection) :
  Board.getBoard R boards = None →
  Board.invite {| Board.roomId := Some R; Board.inviteeEmail := x |} boards
  = Resolved ({| matchedCount := 0; modifiedCount := 0; upsertedCount := 0 |},
              boards).
Proof. intros Hnone%findOne_None. by apply invite_no_match. Qed.

Lemma invite_without_record_is_noop_witness :
  Board.getBoard "r2" Scenario.after_first_save = None ∧
  Board.invite {| Board.roomId := Some "r2"; Board.inviteeEmail := Some "c@x.com" |}
    Scenario.after_first_save
  = Resolved ({| matchedCount := 0; modifiedCount := 0; upsertedCount := 0 |},
              Scenario.after_first_save).
Proof.
  split; [vm_compute; reflexivity|].
  apply (invite_without_record_is_noop "r2" (Some "c@x.com")
           Scenario.after_first_save).
  vm_compute; reflexivity.
Defined.

(** C6. In a store reached by requests, after a delete the room has no
    record; deleting a room that has none reports [deletedCount = 0] and
    leaves the store as it is, deleting a room that has one reports
    [deletedCount = 1], and a second delete finds nothing to remove.
    A delete never rejects: its result is a plain pair. *)
Theorem delete_is_idempotent (rs : list request) (id : string) :
  let boards := run rs in
  let result := Board.delete id boards in
  Board.getBoard id result.2 = None ∧
  (Board.getBoard id boards = None →
   result = ({| deletedCount := 0 |}, boards)) ∧
  (is_Some (Board.getBoard id boards) → result.1 = {| deletedCount := 1 |}) ∧
  Board.delete id result.2 = ({| deletedCount := 0 |}, result.2).
Proof.
  intros boards result.
  assert (Board.getBoard id result.2 = None) as Habsent
    by apply delete_absent, run_well_formed.
  assert (∀ c, Board.getBoard id c = None →
               Board.delete id c = ({| deletedCount := 0 |}, c)) as Hnone.
  { intros c Hc%findOne_None. unfold Board.delete, deleteOne. by rewrite Hc. }
  split_and!; [done|by apply Hnone| |by apply Hnone].
  intros [d [i Hf]%findOne_Some]. unfold result, Board.delete, deleteOne.
  by rewrite Hf.
Qed.

Lemma delete_is_idempotent_witness :
  Board.getBoard "r1"
    (Board.delete "r1" (run [Save "r1" Scenario.first_save 1])).2 = None ∧
  Board.delete "r1" (run []) = ({| deletedCount := 0 |}, run []).
Proof.
  split.
  - apply (delete_is_idempotent [Save "r1" Scenario.first_save 1] "r1").
  - destruct (delete_is_idempotent [] "r1") as (_ & Hnone & _).
    apply Hnone. vm_compute; reflexivity.
Defined.

End inviting.

(** ** The board endpoints: requests that leave a field out *)

Section malformed.
Import Store History.

(** C7, as the specification words it, fails: a save that sends no [name]
    is not turned away, it creates the record; an invite that sends no
    [inviteeEmail] adds [null] to the collaborators of the room. *)
Lemma malformed_request_reaches_store :
  (Board.name Scenario.nameless_save = None ∧
   handle [] (Save "r1" Scenario.nameless_save 1) ≠ [] ∧
   ∃ d, Board.save "r1" Scenario.nameless_save 1 []
        = Resolved ({| matchedCount := 0; modifiedCount := 0;
                       upsertedCount := 1 |}, [d]) ∧
        d !! "name" = Some VNull) ∧
  (Board.inviteeEmail Scenario.anonymous_invitation = None ∧
   handle Scenario.after_first_save (Invite Scenario.anonymous_invitation)
   ≠ Scenario.after_first_save).
Proof.
  split_and!.
  - reflexivity.
  - apply (bool_decide_unpack _). vm_compute. exact I.
  - eexists. split; vm_compute; reflexivity.
  - reflexivity.
  - apply (bool_decide_unpack _). vm_compute. exact I.
Qed.

(** C7, amended.  The handlers do not look at which fields a request
    carries: a field left out reaches the driver as [null].  A save
    resolves whatever is missing, and the room then has a record holding
    [null] in place of each missing content field (and as [owner] when the
    record is new).  In a store reached by requests an invite without
    [roomId] matches no record and leaves the store as it is; an invite
    without [inviteeEmail] for a room that has a record resolves and makes
    [null] a collaborator of it. *)
Theorem missing_fields_are_written_as_null :
  (∀ id body now boards, ∃ res boards' d',
     Board.save id body now boards = Resolved (res, boards') ∧
     Board.getBoard id boards' = Some d' ∧
     d' !! "name" = Some (Board.str_or_null (Board.name body)) ∧
     d' !! "elements" = Some (Board.arr_or_null (Board.elements body)) ∧
     (Board.getBoard id boards = None →
      d' !! "owner" = Some (Board.str_or_null (Board.userEmail body)))) ∧
  (∀ rs x,
     Board.invite {| Board.roomId := None; Board.inviteeEmail := x |} (run rs)
     = Resolved ({| matchedCount := 0; modifiedCount := 0;
                    upsertedCount := 0 |}, run rs)) ∧
  (∀ rs R d,
     Board.getBoard R (run rs) = Some d →
     ∃ l res boards' d',
       d !! "collaborators" = Some (VArr l) ∧
       Board.invite {| Board.roomId := Some R; Board.inviteeEmail := None |}
         (run rs) = Resolved (res, boards') ∧
       Board.getBoard R boards' = Some d' ∧
       d' !! "collaborators"
       = Some (VArr (if bool_decide (VNull ∈ l) then l else l ++ [VNull]))).
Proof.
  split_and!.
  - intros id body now boards.
    destruct (save_result id body now boards)
      as (res & boards' & d' & Hs & Hg & Hn & He & _ & Hcase).
    exists res, boards', d'. split_and!; [done..|].
    intros Hnone. rewrite Hnone in Hcase. by destruct Hcase as (? & _).
  - intros rs x. apply invite_no_match. simpl.
    apply well_formed_null, run_well_formed.
  - intros rs R d [i Hf]%findOne_Some.
    pose proof Hf as (Hi & _ & _)%find_first_Some.
    destruct (well_formed_lookup _ _ _ (run_well_formed rs) Hi)
      as (_ & _ & l & Hl & _).
    destruct (invite_match
                {| Board.roomId := Some R; Board.inviteeEmail := None |}
                (run rs) i d l Hf Hl) as [Hinv Hf'].
    simpl in Hinv, Hf'.
    eexists l, _, _, _. split_and!; [done|exact Hinv| |].
    + unfold Board.getBoard, findOne. by rewrite Hf'.
    + case_bool_decide; by simplify_map_eq.
Qed.

Lemma missing_fields_are_written_as_null_witness :
  Board.getBoard "r1" Scenario.after_first_save = Some Scenario.first_record ∧
  ∃ l res boards' d',
    Scenario.first_record !! "collaborators" = Some (VArr l) ∧
    Board.invite Scenario.anonymous_invitation Scenario.after_first_save
      = Resolved (res, boards') ∧
    Board.getBoard "r1" boards' = Some d' ∧
    d' !! "collaborators"
    = Some (VArr (if bool_decide (VNull ∈ l) then l else l ++ [VNull])).
Proof.
  split; [vm_compute; reflexivity|].
  destruct missing_fields_are_written_as_null as (_ & _ & Hinvite).
  apply (Hinvite [Save "r1" Scenario.first_save 1] "r1" Scenario.first_record).
  vm_compute; reflexivity.
Defined.

End malformed.

(** ** The board endpoints: ownership along a history *)

Section ownership.
Import Store History.

(** In a well-formed store the lookup of a room returns the record that
    carries its [roomId]. *)
Lemma getBoard_of_member (c : collection) (d : document) (R : string) :
  well_formed c → d ∈ c → d !! "roomId" = Some (VStr R) →
  Board.getBoard R c = Some d.
Proof.
  intros Hwf [j Hj]%list_elem_of_lookup Hroom.
  assert (matches "roomId" (VStr R) d = true) as Hm.
  { rewrite (matches_str _ _ R) by done. by apply bool_decide_eq_true. }
  destruct (find_first "roomId" (VStr R) c) as [[i d0]|] eqn:Hf.
  - pose proof Hf as (Hi & Hm0 & _)%find_first_Some.
    pose proof (well_formed_unique c i j d0 d R Hwf Hi Hj Hm0 Hm) as ->.
    unfold Board.getBoard, findOne. rewrite Hf. simpl. congruence.
  - apply find_first_None in Hf. rewrite Forall_forall in Hf.
    destruct (Hf d); [by eapply list_elem_of_lookup_2 | done].
Qed.

(** A record of the store after a request either continues a record that
    was there, or was created by this request, a save of a room that had
    no record. *)
Lemma handle_origin_fresh (c : collection) (r : request) (d : document) :
  well_formed c → d ∈ handle c r →
  (∃ d0, d0 ∈ c ∧ d !! "roomId" = d0 !! "roomId" ∧ d !! "owner" = d0 !! "owner")
  ∨ (∃ id body now, r = Save id body now ∧ Board.getBoard id c = None ∧
       d !! "roomId" = Some (VStr id) ∧
       d !! "owner" = Some (Board.str_or_null (Board.userEmail body))).
Proof.
  intros Hwf Hd. destruct r as [id body now|body|id];
    try (destruct (handle_origin c _ d Hwf Hd)
           as [?|(? & ? & ? & ? & _)]; [by left|done]).
  simpl in Hd.
  destruct (find_first "roomId" (VStr id) c) as [[i d0]|] eqn:Hf.
  - destruct (save_existing id body now c i d0 Hf) as [Hs _].
    rewrite Hs in Hd. simpl in Hd.
    apply find_first_Some in Hf as (Hi & _ & _).
    apply elem_of_list_insert_inv in Hd as [->|Hd]; left.
    + exists d0. split; [by eapply list_elem_of_lookup_2|]. by simplify_map_eq.
    + by exists d.
  - destruct (save_fresh id body now c Hf) as [Hs _].
    rewrite Hs in Hd. simpl in Hd.
    apply elem_of_app in Hd as [Hd| ->%list_elem_of_singleton].
    + left. by exists d.
    + right. exists id, body, now. split_and!; [done| |by simplify_map_eq..].
      by apply findOne_None.
Qed.

(** Every record of a reached store was created by a save of its room,
    made when the room had no record and followed by no delete of the
    room; its [owner] is what that save sent as [userEmail]. *)
Lemma run_creator (rs : list request) (d : document) :
  d ∈ run rs →
  ∃ rs1 id body now rs2,
    rs = rs1 ++ Save id body now :: rs2 ∧
    Board.getBoard id (run rs1) = None ∧ (Delete id ∉ rs2) ∧
    d !! "roomId" = Some (VStr id) ∧
    d !! "owner" = Some (Board.str_or_null (Board.userEmail body)).
Proof.
  revert d. induction rs as [|r rs IH] using rev_ind; intros d.
  { unfold run. simpl. by intros ?%elem_of_nil. }
  rewrite run_snoc. intros Hd.
  pose proof (run_well_formed rs) as Hwf.
  destruct (handle_origin_fresh _ _ _ Hwf Hd)
    as [(d0 & Hd0 & Hroom & Hown)|(id & body & now & -> & Hnone & ? & ?)].
  - destruct (IH d0 Hd0) as (rs1 & id & body & now & rs2 & -> & Hnone & Hnot & Hid & Ho).
    exists rs1, id, body, now, (rs2 ++ [r]).
    split_and!; [by rewrite <- app_assoc|done| |congruence..].
    intros [Hin| <-%list_elem_of_singleton]%elem_of_app; [done|].
    assert (Board.getBoard id (handle (run (rs1 ++ Save id body now :: rs2))
                                 (Delete id)) = Some d) as Hg.
    { apply getBoard_of_member; [by apply handle_well_formed|done|congruence]. }
    simpl in Hg. by rewrite (delete_absent _ id Hwf) in Hg.
  - exists rs, id, body, now, []. split_and!; [done..|by apply not_elem_of_nil|done|done].
Qed.

(** C8, as the specification words it, fails: a save that sends no
    [userEmail] creates the record all the same, and the record's [owner]
    is [null], no identity, though the room has been saved. *)
Lemma saved_room_with_null_owner :
  saved "r1" [Save "r1" Scenario.unsigned_save 1] ∧
  ∃ d, Board.getBoard "r1" (run [Save "r1" Scenario.unsigned_save 1]) = Some d ∧
       d !! "owner" = Some VNull ∧
       ¬ ∃ u, d !! "owner" = Some (VStr u).
Proof.
  split.
  - exists Scenario.unsigned_save, 1%Z. apply elem_of_cons. by left.
  - eexists. split; [vm_compute; reflexivity|].
    split; [vm_compute; reflexivity|].
    intros [u Hu]. vm_compute in Hu. discriminate Hu.
Qed.

(** C8, amended.  In the store a sequence of save, invite and delete
    requests leaves behind, every record was created by a save of its room
    that found no record and that no delete of the room has followed, and
    its [owner] is what that save sent as [userEmail]: an identity when it
    sent one, [null] when it sent none.  So when every save of the history
    carries a [userEmail], every record's owner is an identity.  A room the
    history never saved has no record, so looking it up gives nothing,
    whereas a room just saved with an empty [elements] gives a record whose
    [elements] is the empty array. *)
Theorem owner_is_what_the_creating_save_sent (rs : list request) :
  (∀ d, d ∈ run rs →
     ∃ rs1 id body now rs2,
       rs = rs1 ++ Save id body now :: rs2 ∧
       Board.getBoard id (run rs1) = None ∧ (Delete id ∉ rs2) ∧
       d !! "roomId" = Some (VStr id) ∧
       d !! "owner" = Some (Board.str_or_null (Board.userEmail body))) ∧
  ((∀ id body now, Save id body now ∈ rs → is_Some (Board.userEmail body)) →
   ∀ d, d ∈ run rs → ∃ u, d !! "owner" = Some (VStr u)) ∧
  (∀ id, ¬ saved id rs → Board.getBoard id (run rs) = None) ∧
  (∀ id body now,
     Board.elements body = Some [] →
     ∃ d, Board.getBoard id (run (rs ++ [Save id body now])) = Some d ∧
          d !! "elements" = Some (VArr [])).
Proof.
  split_and!.
  - apply run_creator.
  - intros Hall d (rs1 & id & body & now & rs2 & -> & _ & _ & _ & Hown)%run_creator.
    destruct (Hall id body now) as [u Hu].
    { apply elem_of_app. right. apply elem_of_cons. by left. }
    exists u. by rewrite Hown, Hu.
  - intros id Hnever.
    destruct (Board.getBoard id (run rs)) as [d|] eqn:Hg; [|done].
    apply findOne_Some in Hg as [i (Hi & Hm & _)%find_first_Some].
    destruct (run_creator rs d) as (rs1 & id' & body & now & rs2 & -> & _ & _ & Hroom & _);
      [by eapply list_elem_of_lookup_2|].
    rewrite (matches_str _ _ id'), bool_decide_eq_true in Hm by done.
    subst id'. destruct Hnever. exists body, now.
    apply elem_of_app. right. apply elem_of_cons. by left.
  - intros id body now He. rewrite run_snoc. simpl.
    destruct (save_result id body now (run rs))
      as (res & boards' & d' & -> & Hg & _ & Hel & _).
    simpl. exists d'. split; [done|]. by rewrite Hel, He.
Qed.

Lemma owner_is_what_the_creating_save_sent_witness :
  Scenario.final_record ∈ Scenario.after_invitation ∧
  ∃ u, Scenario.final_record !! "owner" = Some (VStr u).
Proof.
  assert (Scenario.final_record ∈ Scenario.after_invitation) as Hin.
  { apply (list_elem_of_lookup_2 _ 0). vm_compute. reflexivity. }
  split; [exact Hin|].
  destruct (owner_is_what_the_creating_save_sent
              [Save "r1" Scenario.first_save 1; Save "r1" Scenario.second_save 2;
               Invite Scenario.invitation]) as (_ & Hall & _).
  apply Hall; [|exact Hin].
  intros id body now Hsave.
  repeat (apply elem_of_cons in Hsave as [Hsave|Hsave];
          [first [injection Hsave as -> -> ->; by eexists | discriminate Hsave]|]).
  by apply elem_of_nil in Hsave.
Defined.

End ownership.

(** ** The live session *)

Section session_facts.
Import Session.
Implicit Types (st : io) (c s room : string) (p : packet).

Lemma received_write p t w c :
  default [] (write p t w !! c)
  = if bool_decide (c = t) then default [] (w !! c) ++ [p]
    else default [] (w !! c).
Proof.
  unfold write. case_bool_decide as Hc.
  - subst c. by rewrite lookup_insert_eq.
  - by rewrite lookup_insert_ne.
Qed.

(** Emitting to a list of distinct sockets appends the packet to what each
    of them has received, and to nobody else's. *)
Lemma received_emit targets p st c :
  NoDup targets →
  received c (emit targets p st)
  = if bool_decide (c ∈ targets) then received c st ++ [p] else received c st.
Proof.
  unfold received, emit. simpl.
  induction 1 as [|t ts Hnotin Hnd IH]; cbn [foldr].
  - rewrite bool_decide_false; [done | apply not_elem_of_nil].
  - rewrite received_write, IH.
    destruct (decide (c = t)) as [->|Hne].
    + rewrite (bool_decide_true (t = t)) by done.
      rewrite (bool_decide_false (t ∈ ts)) by done.
      rewrite bool_decide_true; [done | apply elem_of_cons; by left].
    + rewrite (bool_decide_false (c = t)) by done.
      rewrite (bool_decide_ext (c ∈ t :: ts) (c ∈ ts)); [done|].
      rewrite elem_of_cons. split; [by intros [?|?] | by right].
Qed.

Lemma membersOf_join c room room' st :
  membersOf room' (join c room st)
  = if bool_decide (room' = room) then {[c]} ∪ membersOf room st
    else membersOf room' st.
Proof.
  unfold membersOf, join. simpl. case_bool_decide as Hr.
  - subst. by rewrite lookup_insert_eq.
  - by rewrite lookup_insert_ne.
Qed.

(** Joining a room writes nothing to anybody. *)
Lemma received_join c c' room st : received c' (join c room st) = received c' st.
Proof. done. Qed.

Lemma membersOf_leaveAll c room st :
  membersOf room (leaveAll c st) = membersOf room st ∖ {[c]}.
Proof.
  unfold membersOf, leaveAll. simpl. rewrite lookup_fmap.
  destruct (rooms st !! room); simpl; [done|].
  symmetry. apply difference_disjoint_L, disjoint_empty_l.
Qed.

End session_facts.

Section session_claims.
Import Session.

(** What a socket has been written after a [drawing-update]. *)
Lemma received_after_drawing_update st s roomId data_elements c :
  received c (drawing_update s roomId data_elements st)
  = if bool_decide (c ∈ membersOf roomId st ∧ c ≠ s ∧ c ∉ membersOf s st)
    then received c st ++ [ReceiveDrawing data_elements]
    else received c st.
Proof.
  unfold drawing_update. rewrite received_emit by apply NoDup_elements.
  apply (f_equal (λ b : bool, if b then _ else _)).
  apply bool_decide_ext. unfold to.
  rewrite elem_of_elements, elem_of_difference, elem_of_union,
    elem_of_singleton.
  split.
  - intros [Hin Hex]. split_and!; [done|..]; intros ?; apply Hex; auto.
  - intros (Hin & Hne & Hout). split; [done|]. by intros [?|?].
Qed.




(** C4. Once [join-room] is handled the socket is in the room; once its
    transport has closed it is in no room, while the membership of every
    other socket is what it was; and closing a socket that is in no room
    changes nothing at all. *)
Theorem join_then_disconnect (st : io) (c roomId : string) :
  c ∈ membersOf roomId (join_room c roomId st) ∧
  (∀ room, c ∉ membersOf room (disconnect c st)) ∧
  (∀ room c', c' ≠ c →
     (c' ∈ membersOf room (disconnect c st) ↔ c' ∈ membersOf room st)) ∧
  ((∀ room, c ∉ membersOf room st) → disconnect c st = st).
Proof.
  split_and!.
  - unfold join_room. rewrite membersOf_join, bool_decide_true by done.
    apply elem_of_union_l, elem_of_singleton. done.
  - intros room. unfold disconnect. rewrite membersOf_leaveAll.
    rewrite elem_of_difference, elem_of_singleton. by intros [_ ?].
  - intros room c' Hne. unfold disconnect. rewrite membersOf_leaveAll.
    rewrite elem_of_difference, elem_of_singleton. split; [by intros [? _]|done].
  - intros Hnone. unfold disconnect, leaveAll. destruct st as [rms w]. simpl.
    f_equal. apply map_eq. intros room. rewrite lookup_fmap.
    destruct (rms !! room) as [members|] eqn:Hroom; simpl; [|done].
    f_equal. apply difference_disjoint_L, disjoint_singleton_r.
    specialize (Hnone room). unfold membersOf in Hnone. simpl in Hnone.
    by rewrite Hroom in Hnone.
Qed.

Lemma join_then_disconnect_witness :
  (∀ room, "C" ∉ membersOf room Scenario.two_in_room) ∧
  disconnect "C" Scenario.two_in_room = Scenario.two_in_room.
Proof.
  assert (∀ room, "C" ∉ membersOf room Scenario.two_in_room) as Hnone.
  { intros room. unfold Scenario.two_in_room, join_room, connection.
    rewrite !membersOf_join. unfold membersOf, start. simpl.
    rewrite !lookup_empty. simpl.
    repeat case_bool_decide; subst;
      rewrite ?elem_of_union, ?elem_of_singleton, ?elem_of_empty;
      intuition discriminate. }
  split; [exact Hnone|].
  destruct (join_then_disconnect Scenario.two_in_room "C" "r1") as (_ & _ & _ & Hnoop).
  by apply Hnoop.
Defined.

End session_claims.

(** ** The two scenarios, evaluated *)

Section scenarios.
Import Store.

(** Saved by [a@x.com], saved again by [b@x.com] with one shape, shared with
    [c@x.com]: the owner is still [a@x.com]. *)
Lemma scenario_final_record :
  ∃ d, Board.getBoard "r1" Scenario.after_invitation = Some d ∧
       d !! "owner" = Some (VStr "a@x.com") ∧
       d !! "elements" = Some (VArr [Scenario.shape1]) ∧
       d !! "collaborators" = Some (VArr [VStr "c@x.com"]) ∧
       length Scenario.after_invitation = 1.
Proof. eexists. split_and!; vm_compute; reflexivity. Qed.

(** [A] and [B] are in room [r1]; [A] sends one shape: [B] gets it, [A]
    gets nothing. *)
Lemma scenario_drawing_update :
  let st := Session.drawing_update "A" "r1" (VArr [Scenario.shape1])
              Scenario.two_in_room in
  Session.received "B" st = [Session.ReceiveDrawing (VArr [Scenario.shape1])] ∧
  Session.received "A" st = [].
Proof. split; vm_compute; reflexivity. Qed.

End scenarios.

(** * Further properties of the board endpoints *)

(** ** One record per room, and rooms do not disturb one another *)

Section rooms_apart.
Import Store History.
Implicit Types (c boards : collection) (d : document).

Lemma findOne_cons_hit f v d c :
  matches f v d = true → findOne f v (d :: c) = Some d.
Proof.
  intros Hm. unfold findOne, find_first. simpl. by rewrite decide_True.
Qed.

Lemma findOne_cons_miss f v d c :
  matches f v d = false → findOne f v (d :: c) = findOne f v c.
Proof.
  intros Hm. unfold findOne, find_first. simpl.
  rewrite decide_False by congruence.
  by destruct (list_find _ c) as [[??]|].
Qed.

Lemma findOne_replace_other f v c i d' :
  (∀ d, c !! i = Some d → matches f v d = false) → matches f v d' = false →
  findOne f v (<[i := d']> c) = findOne f v c.
Proof.
  revert i. induction c as [|y c IH]; intros i Hold Hnew; [done|].
  destruct i as [|i].
  - change (<[0 := d']> (y :: c)) with (d' :: c).
    rewrite !findOne_cons_miss; [done| |done]. by apply Hold.
  - change (<[S i := d']> (y :: c)) with (y :: <[i := d']> c).
    destruct (matches f v y) eqn:Hy.
    + by rewrite !findOne_cons_hit.
    + rewrite !findOne_cons_miss by done. by apply IH.
Qed.

Lemma findOne_append_other f v c d' :
  matches f v d' = false → findOne f v (c ++ [d']) = findOne f v c.
Proof.
  intros Hnew. induction c as [|y c IH]; simpl.
  - by rewrite findOne_cons_miss.
  - destruct (matches f v y) eqn:Hy.
    + by rewrite !findOne_cons_hit.
    + by rewrite !findOne_cons_miss.
Qed.

Lemma findOne_delete_other f v c i :
  (∀ d, c !! i = Some d → matches f v d = false) →
  findOne f v (delete i c) = findOne f v c.
Proof.
  revert i. induction c as [|y c IH]; intros i Hold; [done|].
  destruct i as [|i].
  - change (delete 0 (y :: c)) with c.
    rewrite findOne_cons_miss; [done|]. by apply Hold.
  - change (delete (S i) (y :: c)) with (y :: delete i c).
    destruct (matches f v y) eqn:Hy.
    + by rewrite !findOne_cons_hit.
    + rewrite !findOne_cons_miss by done. by apply IH.
Qed.

(** A record whose [roomId] is a string answers for that room only. *)
Lemma matches_other_room d id R' :
  d !! "roomId" = Some (VStr id) → id ≠ R' →
  matches "roomId" (VStr R') d = false.
Proof. intros Hid Hne. rewrite (matches_str _ _ id) by done. by rewrite bool_decide_false. Qed.

Lemma matches_room_inv c i d R :
  well_formed c → c !! i = Some d → matches "roomId" (VStr R) d = true →
  d !! "roomId" = Some (VStr R).
Proof.
  intros Hwf Hi Hm. destruct (well_formed_lookup _ _ _ Hwf Hi) as ([id Hid] & _).
  rewrite (matches_str _ _ id), bool_decide_eq_true in Hm by done. by subst.
Qed.

(** A request about one room leaves the lookup of every other room as it
    was. *)
Lemma handle_other_room c r R' :
  well_formed c → Requests.room_of r ≠ Some R' →
  Board.getBoard R' (handle c r) = Board.getBoard R' c.
Proof.
  intros Hwf Hroom. unfold Board.getBoard.
  destruct r as [id body now|body|id]; simpl in *.
  - assert (id ≠ R') as Hne by congruence.
    destruct (find_first "roomId" (VStr id) c) as [[i d]|] eqn:Hf.
    + destruct (save_existing id body now c i d Hf) as [-> _]. simpl.
      apply find_first_Some in Hf as (Hi & Hm & _).
      pose proof (matches_room_inv _ _ _ _ Hwf Hi Hm) as Hid.
      apply findOne_replace_other.
      * intros d0 Hd0. rewrite Hi in Hd0. injection Hd0 as <-.
        by apply (matches_other_room _ id).
      * apply (matches_other_room _ id); [by simplify_map_eq | done].
    + destruct (save_fresh id body now c Hf) as [-> _]. simpl.
      apply findOne_append_other.
      apply (matches_other_room _ id); [by simplify_map_eq | done].
  - destruct (find_first "roomId" (Board.str_or_null (Board.roomId body)) c)
      as [[i d]|] eqn:Hf.
    + pose proof Hf as (Hi & Hm & _)%find_first_Some.
      destruct (well_formed_lookup _ _ _ Hwf Hi) as ([id Hid] & _ & l & Hl & _).
      destruct (invite_match body c i d l Hf Hl) as [-> _]. simpl.
      assert (id ≠ R') as Hne.
      { intros ->. destruct (Board.roomId body) as [R|]; simpl in Hm.
        - rewrite (matches_str _ _ R') in Hm by done.
          apply bool_decide_eq_true in Hm. congruence.
        - by rewrite (matches_null_str _ R') in Hm. }
      apply findOne_replace_other.
      * intros d0 Hd0. rewrite Hi in Hd0. injection Hd0 as <-.
        by apply (matches_other_room _ id).
      * apply (matches_other_room _ id); [|done].
        case_bool_decide; by simplify_map_eq.
    + by rewrite (invite_no_match body c Hf).
  - assert (id ≠ R') as Hne by congruence.
    unfold Board.delete, deleteOne.
    destruct (find_first "roomId" (VStr id) c) as [[i d]|] eqn:Hf; simpl; [|done].
    apply find_first_Some in Hf as (Hi & Hm & _).
    pose proof (matches_room_inv _ _ _ _ Hwf Hi Hm) as Hid.
    apply findOne_delete_other.
    intros d0 Hd0. rewrite Hi in Hd0. injection Hd0 as <-.
    by apply (matches_other_room _ id).
Qed.

(** X1. In a store reached by requests no two records have the same
    [roomId], and every [roomId] is a string. *)
Theorem one_record_per_room (rs : list request) (i j : nat) (d1 d2 : document) :
  run rs !! i = Some d1 → run rs !! j = Some d2 →
  d1 !! "roomId" = d2 !! "roomId" →
  i = j ∧ ∃ id, d1 !! "roomId" = Some (VStr id).
Proof.
  intros Hi Hj Heq. pose proof (run_well_formed rs) as Hwf.
  destruct (well_formed_lookup _ _ _ Hwf Hi) as ([id Hid] & _).
  split; [|by exists id].
  apply (well_formed_unique (run rs) i j d1 d2 id Hwf Hi Hj).
  - rewrite (matches_str _ _ id) by done. by apply bool_decide_eq_true.
  - rewrite (matches_str _ _ id) by congruence. by apply bool_decide_eq_true.
Qed.

Lemma one_record_per_room_witness :
  Scenario.after_first_save !! 0 = Some Scenario.first_record ∧
  0 = 0 ∧ ∃ id, Scenario.first_record !! "roomId" = Some (VStr id).
Proof.
  assert (Scenario.after_first_save !! 0 = Some Scenario.first_record) as H0
    by (vm_compute; reflexivity).
  split; [exact H0|].
  apply (one_record_per_room [Save "r1" Scenario.first_save 1] 0 0
           Scenario.first_record Scenario.first_record H0 H0).
  reflexivity.
Defined.

(** X2. In a store reached by requests, a save, an invite or a delete about
    one room leaves what a lookup of any other room returns unchanged. *)
Theorem request_leaves_other_rooms_alone
    (rs : list request) (r : request) (R' : string) :
  Requests.room_of r ≠ Some R' →
  Board.getBoard R' (run (rs ++ [r])) = Board.getBoard R' (run rs).
Proof.
  intros Hroom. rewrite run_snoc.
  apply handle_other_room; [apply run_well_formed | done].
Qed.

Lemma request_leaves_other_rooms_alone_witness :
  Requests.room_of (Delete "r2") ≠ Some "r1" ∧
  Board.getBoard "r1" (run ([Save "r1" Scenario.first_save 1] ++ [Delete "r2"]))
  = Board.getBoard "r1" (run [Save "r1" Scenario.first_save 1]).
Proof.
  assert (Requests.room_of (Delete "r2") ≠ Some "r1") as Hne by discriminate.
  split; [exact Hne|].
  by apply (request_leaves_other_rooms_alone
              [Save "r1" Scenario.first_save 1] (Delete "r2") "r1").
Defined.

End rooms_apart.

(** ** Ownership and collaborators along a history *)

Section ownership_over_time.
Import Store History.
Implicit Types (c boards : collection) (d : document).

Lemma continue_well_formed c rs :
  well_formed c → well_formed (Requests.continue c rs).
Proof.
  revert c. induction rs as [|r rs IH]; intros c Hwf; [done|].
  simpl. by apply IH, handle_well_formed.
Qed.

Lemma run_app rs rs' : run (rs ++ rs') = Requests.continue (run rs) rs'.
Proof. unfold run, Requests.continue. apply foldl_app. Qed.

(** One request other than a delete of the room keeps the room's record,
    its owner, and its collaborators up to additions at the end. *)
Lemma handle_keeps_owner c r R d l :
  well_formed c → Board.getBoard R c = Some d →
  d !! "collaborators" = Some (VArr l) → r ≠ Delete R →
  ∃ d' l', Board.getBoard R (handle c r) = Some d' ∧
           d' !! "owner" = d !! "owner" ∧
           d' !! "collaborators" = Some (VArr l') ∧ l `prefix_of` l'.
Proof.
  intros Hwf Hd Hl Hr.
  destruct (decide (Requests.room_of r = Some R)) as [Hroom|Hroom].
  - destruct r as [id body now|body|id]; simpl in Hroom.
    + injection Hroom as ->. simpl.
      destruct (save_result R body now c)
        as (res & boards' & d' & -> & Hg & _ & _ & _ & Hcase).
      rewrite Hd in Hcase. destruct Hcase as (Hframe & _). simpl.
      exists d', l. split_and!; [done| | |done].
      * apply Hframe. intros Hin. apply (bool_decide_pack _) in Hin.
        vm_compute in Hin. exact Hin.
      * rewrite <- Hl. apply Hframe. intros Hin.
        apply (bool_decide_pack _) in Hin. vm_compute in Hin. exact Hin.
    + apply findOne_Some in Hd as [i Hf].
      assert (Board.str_or_null (Board.roomId body) = VStr R) as Hv
        by (by rewrite Hroom).
      rewrite <- Hv in Hf.
      destruct (invite_match body c i d l Hf Hl) as [Hinv Hf']. simpl.
      rewrite Hinv. simpl. rewrite Hv in Hf'.
      set (xv := Board.str_or_null (Board.inviteeEmail body)) in *.
      exists (if bool_decide (xv ∈ l) then d
              else <["collaborators" := VArr (l ++ [xv])]> d),
             (if bool_decide (xv ∈ l) then l else l ++ [xv]).
      split; [unfold Board.getBoard, findOne; by rewrite Hf'|].
      case_bool_decide.
      * split_and!; [done|exact Hl|done].
      * split_and!; [by simplify_map_eq|by simplify_map_eq|].
        by apply prefix_app_r.
    + congruence.
  - exists d, l. rewrite (handle_other_room c r R Hwf Hroom). done.
Qed.

Lemma continue_keeps_owner c rs R d l :
  well_formed c → Board.getBoard R c = Some d →
  d !! "collaborators" = Some (VArr l) → Delete R ∉ rs →
  ∃ d' l', Board.getBoard R (Requests.continue c rs) = Some d' ∧
           d' !! "owner" = d !! "owner" ∧
           d' !! "collaborators" = Some (VArr l') ∧ l `prefix_of` l'.
Proof.
  revert c d l. induction rs as [|r rs IH]; intros c d l Hwf Hd Hl Hnot.
  { exists d, l. done. }
  simpl.
  destruct (handle_keeps_owner c r R d l Hwf Hd Hl)
    as (d1 & l1 & Hd1 & Hown1 & Hl1 & Hpre1).
  { intros ->. apply Hnot, elem_of_cons. by left. }
  destruct (IH (handle c r) d1 l1) as (d' & l' & ? & Hown & ? & Hpre);
    [by apply handle_well_formed|done..| |].
  { intros Hin. apply Hnot, elem_of_cons. by right. }
  exists d', l'. split_and!; [done|congruence|done|by etrans].
Qed.

(** X3. Along any further requests that do not delete the room, the room
    keeps a record, the record keeps its [owner], and its [collaborators]
    only grows at the end: nobody is removed or reordered. *)
Theorem owner_stays_collaborators_grow
    (rs rs' : list request) (R : string) (d : document) (l : list value) :
  Board.getBoard R (run rs) = Some d →
  d !! "collaborators" = Some (VArr l) →
  Delete R ∉ rs' →
  ∃ d' l', Board.getBoard R (run (rs ++ rs')) = Some d' ∧
           d' !! "owner" = d !! "owner" ∧
           d' !! "collaborators" = Some (VArr l') ∧ l `prefix_of` l'.
Proof.
  intros Hd Hl Hnot. rewrite run_app.
  by apply continue_keeps_owner; [apply run_well_formed|..].
Qed.

Lemma owner_stays_collaborators_grow_witness :
  ∃ d' l',
    Board.getBoard "r1"
      (run ([Save "r1" Scenario.first_save 1]
            ++ [Save "r1" Scenario.second_save 2; Invite Scenario.invitation]))
    = Some d' ∧
    d' !! "owner" = Scenario.first_record !! "owner" ∧
    d' !! "collaborators" = Some (VArr l') ∧ [] `prefix_of` l'.
Proof.
  apply (owner_stays_collaborators_grow [Save "r1" Scenario.first_save 1]
           [Save "r1" Scenario.second_save 2; Invite Scenario.invitation]
           "r1" Scenario.first_record []).
  - vm_compute; reflexivity.
  - vm_compute; reflexivity.
  - intros Hin.
    repeat (apply elem_of_cons in Hin as [Hin|Hin]; [discriminate Hin|]).
    by apply elem_of_nil in Hin.
Defined.

(** X4. Deleting a room and saving it again starts over: the record that
    save creates has the new requester as [owner] and no collaborators,
    whoever owned or shared the room before. *)
Theorem delete_then_save_starts_over
    (rs : list request) (R : string) (body : Board.SaveBody) (now : Z) :
  ∃ d, Board.getBoard R (run (rs ++ [Delete R; Save R body now])) = Some d ∧
       d !! "owner" = Some (Board.str_or_null (Board.userEmail body)) ∧
       d !! "collaborators" = Some (VArr []) ∧
       d !! "name" = Some (Board.str_or_null (Board.name body)) ∧
       d !! "elements" = Some (Board.arr_or_null (Board.elements body)).
Proof.
  rewrite run_app. simpl.
  pose proof (delete_absent (run rs) R (run_well_formed rs)) as Habsent.
  destruct (save_result R body now (Board.delete R (run rs)).2)
    as (res & boards' & d' & -> & Hg & Hn & He & _ & Hcase).
  rewrite Habsent in Hcase. destruct Hcase as (Hown & Hcol & _). simpl.
  by exists d'.
Qed.

Lemma invite_on_record
    (rs : list request) (R : string) (x : option string) (d : document) :
  Board.getBoard R (run rs) = Some d →
  ∃ l res boards' d',
    d !! "collaborators" = Some (VArr l) ∧
    Board.invite {| Board.roomId := Some R; Board.inviteeEmail := x |} (run rs)
      = Resolved (res, boards') ∧
    Board.getBoard R boards' = Some d' ∧
    d' !! "collaborators"
      = Some (VArr (if bool_decide (Board.str_or_null x ∈ l) then l
                    else l ++ [Board.str_or_null x])) ∧
    (∀ f, f ≠ "collaborators" → d' !! f = d !! f) ∧
    matchedCount res = 1 ∧
    modifiedCount res = (if bool_decide (Board.str_or_null x ∈ l) then 0 else 1).
Proof.
  intros [i Hf]%findOne_Some.
  pose proof Hf as (Hi & _ & _)%find_first_Some.
  destruct (well_formed_lookup _ _ _ (run_well_formed rs) Hi)
    as (_ & _ & l & Hl & _).
  destruct (invite_match
              {| Board.roomId := Some R; Board.inviteeEmail := x |}
              (run rs) i d l Hf Hl) as [Hinv Hf'].
  simpl in Hinv, Hf'. set (xv := Board.str_or_null x) in *.
  set (d' := if bool_decide (xv ∈ l) then d
             else <["collaborators" := VArr (l ++ [xv])]> d) in *.
  exists l, {| matchedCount := 1;
               modifiedCount := if bool_decide (d' = d) then 0 else 1;
               upsertedCount := 0 |}, (<[i := d']> (run rs)), d'.
  split_and!; [done|exact Hinv| | | |done|].
  - unfold Board.getBoard, findOne. by rewrite Hf'.
  - unfold d'. destruct (decide (xv ∈ l)) as [Hin|Hin].
    + by rewrite !(bool_decide_true (xv ∈ l)) by done.
    + rewrite !(bool_decide_false (xv ∈ l)) by done.
      by rewrite lookup_insert_eq.
  - intros f Hne. unfold d'. destruct (decide (xv ∈ l)) as [Hin|Hin].
    + by rewrite !(bool_decide_true (xv ∈ l)) by done.
    + rewrite !(bool_decide_false (xv ∈ l)) by done.
      by rewrite lookup_insert_ne by (intros <-; done).
  - simpl. unfold d'. destruct (decide (xv ∈ l)) as [Hin|Hin].
    + rewrite !(bool_decide_true (xv ∈ l)) by done.
      by rewrite bool_decide_true.
    + rewrite !(bool_decide_false (xv ∈ l)) by done.
      rewrite bool_decide_false; [done|]. intros Heq.
      apply (f_equal (λ m : document, m !! "collaborators")) in Heq.
      rewrite lookup_insert_eq, Hl in Heq. injection Heq as Heq.
      apply (f_equal length) in Heq. rewrite length_app in Heq.
      simpl in Heq. lia.
Qed.

(** X5. In a store reached by requests, an invite for a room that has a
    record resolves and puts the invitee at the end of [collaborators]
    unless already there; every other field of the record, [lastModified]
    included, is as before, and [modifiedCount] tells whether the invitee
    was new. *)
Theorem invite_adds_collaborator
    (rs : list request) (R : string) (x : option string) (d : document) :
  Board.getBoard R (run rs) = Some d →
  ∃ l res boards' d',
    d !! "collaborators" = Some (VArr l) ∧
    Board.invite {| Board.roomId := Some R; Board.inviteeEmail := x |} (run rs)
      = Resolved (res, boards') ∧
    Board.getBoard R boards' = Some d' ∧
    d' !! "collaborators"
      = Some (VArr (if bool_decide (Board.str_or_null x ∈ l) then l
                    else l ++ [Board.str_or_null x])) ∧
    (∀ f, f ≠ "collaborators" → d' !! f = d !! f) ∧
    matchedCount res = 1 ∧
    modifiedCount res = (if bool_decide (Board.str_or_null x ∈ l) then 0 else 1).
Proof. apply invite_on_record. Qed.

Lemma invite_adds_collaborator_witness :
  Board.getBoard "r1" Scenario.after_first_save = Some Scenario.first_record ∧
  ∃ l res boards' d',
    Scenario.first_record !! "collaborators" = Some (VArr l) ∧
    Board.invite Scenario.invitation (run [Save "r1" Scenario.first_save 1])
      = Resolved (res, boards') ∧
    Board.getBoard "r1" boards' = Some d' ∧
    d' !! "collaborators"
      = Some (VArr (if bool_decide (VStr "c@x.com" ∈ l) then l
                    else l ++ [VStr "c@x.com"])) ∧
    (∀ f, f ≠ "collaborators" → d' !! f = Scenario.first_record !! f) ∧
    matchedCount res = 1 ∧
    modifiedCount res = (if bool_decide (VStr "c@x.com" ∈ l) then 0 else 1).
Proof.
  split; [vm_compute; reflexivity|].
  apply (invite_adds_collaborator [Save "r1" Scenario.first_save 1] "r1"
           (Some "c@x.com") Scenario.first_record).
  vm_compute; reflexivity.
Defined.

End ownership_over_time.

(** * The listing of a user's boards *)

Section listing.
Import Store History Listing.
Implicit Types (c boards : collection) (d p : document).

(** On a record whose [owner] is a string or [null] and whose
    [collaborators] is an array, the query asks whether the address is the
    owner or among the collaborators. *)
Lemma query_spec email d u l :
  d !! "owner" = Some (Board.str_or_null u) →
  d !! "collaborators" = Some (VArr l) →
  query email d = true ↔ (u = Some email ∨ VStr email ∈ l).
Proof.
  intros Hown Hl. unfold query, matches, matches_in. rewrite Hown, Hl.
  rewrite !orb_true_iff, !bool_decide_eq_true.
  rewrite Exists_cons, Exists_nil, list_elem_of_singleton.
  split.
  - intros [[Hu|Hf]|[Hf|[Hin|[]]]]; try done.
    + left. destruct u as [s|]; simpl in Hu; [congruence|done].
    + destruct u; done.
    + by right.
  - intros [->|Hin]; [by left; left|]. right; right. by left.
Qed.

Lemma getBoard_member c d R :
  well_formed c → Board.getBoard R c = Some d →
  d ∈ c ∧ d !! "roomId" = Some (VStr R).
Proof.
  intros Hwf [i Hf]%findOne_Some.
  apply find_first_Some in Hf as (Hi & Hm & _). split.
  - by eapply list_elem_of_lookup_2.
  - by eapply matches_room_inv.
Qed.

(** The listing shows a room exactly when the room has a record and the
    address is its owner or one of its collaborators. *)
Lemma lists_iff rs email R :
  lists email R (run rs) ↔
  ∃ d u l, Board.getBoard R (run rs) = Some d ∧
           d !! "owner" = Some (Board.str_or_null u) ∧
           d !! "collaborators" = Some (VArr l) ∧
           (u = Some email ∨ VStr email ∈ l).
Proof.
  pose proof (run_well_formed rs) as Hwf. split.
  - intros (p & Hp & Hroom). unfold allBoards in Hp.
    apply list_elem_of_fmap in Hp as (d & -> & Hd).
    apply list_elem_of_filter in Hd as [Hq Hd].
    unfold project in Hroom. rewrite lookup_delete_ne in Hroom by done.
    destruct (run_origin rs d Hd) as (_ & body & _ & _ & _ & Hown).
    pose proof Hd as [i Hi]%list_elem_of_lookup.
    destruct (well_formed_lookup _ _ _ Hwf Hi) as (_ & _ & l & Hl & _).
    exists d, (Board.userEmail body), l. split_and!; [|done..|].
    + by apply getBoard_of_member.
    + by apply (query_spec email d _ l Hown Hl).
  - intros (d & u & l & Hg & Hown & Hl & Hq).
    destruct (getBoard_member _ _ _ Hwf Hg) as [Hd Hroom].
    exists (project d). split.
    + unfold allBoards. apply list_elem_of_fmap. exists d. split; [done|].
      apply list_elem_of_filter. split; [|done].
      by apply (query_spec email d u l Hown Hl).
    + unfold project. by rewrite lookup_delete_ne.
Qed.

Lemma str_or_null_inj u1 u2 :
  Board.str_or_null u1 = Board.str_or_null u2 → u1 = u2.
Proof. destruct u1, u2; simpl; congruence. Qed.

(** X6. In a store reached by requests, the listing for an address holds
    exactly the records whose owner is the address or whose collaborators
    include it, each with its [elements] field removed and nothing else
    changed. *)
Theorem allBoards_shows_owned_and_shared
    (rs : list request) (email : string) (p : document) :
  (p ∈ allBoards email (run rs) ↔
   ∃ d u l, d ∈ run rs ∧ p = delete "elements" d ∧
            d !! "owner" = Some (Board.str_or_null u) ∧
            d !! "collaborators" = Some (VArr l) ∧
            (u = Some email ∨ VStr email ∈ l)) ∧
  (p ∈ allBoards email (run rs) → p !! "elements" = None).
Proof.
  pose proof (run_well_formed rs) as Hwf. split; [split|].
  - intros (d & -> & Hd)%list_elem_of_fmap.
    apply list_elem_of_filter in Hd as [Hq Hd].
    destruct (run_origin rs d Hd) as (_ & body & _ & _ & _ & Hown).
    pose proof Hd as [i Hi]%list_elem_of_lookup.
    destruct (well_formed_lookup _ _ _ Hwf Hi) as (_ & _ & l & Hl & _).
    exists d, (Board.userEmail body), l. split_and!; [done..|].
    by apply (query_spec email d _ l Hown Hl).
  - intros (d & u & l & Hd & -> & Hown & Hl & Hq).
    apply list_elem_of_fmap. exists d. split; [done|].
    apply list_elem_of_filter. split; [|done].
    by apply (query_spec email d u l Hown Hl).
  - intros (d & -> & _)%list_elem_of_fmap. apply lookup_delete_eq.
Qed.

Lemma allBoards_shows_owned_and_shared_witness :
  delete "elements" Scenario.first_record
    ∈ allBoards "a@x.com" (run [Save "r1" Scenario.first_save 1]).
Proof.
  apply (allBoards_shows_owned_and_shared [Save "r1" Scenario.first_save 1]).
  exists Scenario.first_record, (Some "a@x.com"), [].
  split_and!; [|reflexivity|vm_compute; reflexivity|vm_compute; reflexivity
               |by left].
  apply (list_elem_of_lookup_2 _ 0). vm_compute; reflexivity.
Defined.

(** X7. After the first save of a room, the room is listed for exactly the
    address the save sent as [userEmail]: for nobody when it sent none. *)
Theorem first_save_lists_for_sender
    (rs : list request) (R : string) (body : Board.SaveBody) (now : Z)
    (email : string) :
  Board.getBoard R (run rs) = None →
  (lists email R (run (rs ++ [Save R body now]))
   ↔ Board.userEmail body = Some email).
Proof.
  intros Hnone. rewrite lists_iff, run_snoc. simpl.
  destruct (save_result R body now (run rs))
    as (res & boards' & d' & -> & Hg & _ & _ & _ & Hcase).
  rewrite Hnone in Hcase. destruct Hcase as (Hown & Hcol & _). simpl.
  split.
  - intros (d & u & l & Hd & Hu & Hl & Hq).
    rewrite Hg in Hd. injection Hd as <-.
    rewrite Hown in Hu. injection Hu as Hu. apply str_or_null_inj in Hu.
    rewrite Hcol in Hl. injection Hl as <-.
    destruct Hq as [->|Hin]; [done|]. by apply elem_of_nil in Hin.
  - intros Hu. exists d', (Board.userEmail body), []. split_and!; [done..|].
    by left.
Qed.

Lemma first_save_lists_for_sender_witness :
  Board.getBoard "r1" (run []) = None ∧
  lists "a@x.com" "r1" (run ([] ++ [Save "r1" Scenario.first_save 1])).
Proof.
  assert (Board.getBoard "r1" (run []) = None) as Hnone by reflexivity.
  split; [exact Hnone|].
  by apply (first_save_lists_for_sender [] "r1" Scenario.first_save 1 "a@x.com").
Defined.

(** X8. After a save on a room that already has a record, the room is
    listed for the same addresses as before: overwriting a board does not
    make it appear in the requester's listing. *)
Theorem later_save_changes_no_listing
    (rs : list request) (R : string) (body : Board.SaveBody) (now : Z)
    (email : string) (d : document) :
  Board.getBoard R (run rs) = Some d →
  (lists email R (run (rs ++ [Save R body now])) ↔ lists email R (run rs)).
Proof.
  intros Hd. rewrite !lists_iff, run_snoc. simpl.
  destruct (save_result R body now (run rs))
    as (res & boards' & d' & -> & Hg & _ & _ & _ & Hcase).
  rewrite Hd in Hcase. destruct Hcase as (Hframe & _). simpl.
  assert (d' !! "owner" = d !! "owner") as Hown.
  { apply Hframe. intros Hin. apply (bool_decide_pack _) in Hin.
    vm_compute in Hin. exact Hin. }
  assert (d' !! "collaborators" = d !! "collaborators") as Hcol.
  { apply Hframe. intros Hin. apply (bool_decide_pack _) in Hin.
    vm_compute in Hin. exact Hin. }
  split.
  - intros (d0 & u & l & Hd0 & Hu & Hl & Hq).
    rewrite Hg in Hd0. injection Hd0 as <-.
    exists d, u, l. split_and!; [done|congruence|congruence|done].
  - intros (d0 & u & l & Hd0 & Hu & Hl & Hq).
    rewrite Hd in Hd0. injection Hd0 as <-.
    exists d', u, l. split_and!; [done|congruence|congruence|done].
Qed.

Lemma later_save_changes_no_listing_witness :
  Board.getBoard "r1" Scenario.after_first_save = Some Scenario.first_record ∧
  (lists "b@x.com" "r1"
     (run ([Save "r1" Scenario.first_save 1] ++ [Save "r1" Scenario.second_save 2]))
   ↔ lists "b@x.com" "r1" (run [Save "r1" Scenario.first_save 1])).
Proof.
  assert (Board.getBoard "r1" Scenario.after_first_save
          = Some Scenario.first_record) as Hd by (vm_compute; reflexivity).
  split; [exact Hd|].
  by apply (later_save_changes_no_listing [Save "r1" Scenario.first_save 1]
              "r1" Scenario.second_save 2 "b@x.com" Scenario.first_record).
Defined.

(** X9. After an invite for a room that has a record, the room is listed
    for the addresses it was listed for before and for the invitee. *)
Theorem invite_lists_for_invitee
    (rs : list request) (R : string) (x : option string) (email : string)
    (d : document) :
  Board.getBoard R (run rs) = Some d →
  (lists email R
     (run (rs ++ [Invite {| Board.roomId := Some R; Board.inviteeEmail := x |}]))
   ↔ lists email R (run rs) ∨ x = Some email).
Proof.
  intros Hd. rewrite !lists_iff, run_snoc. simpl.
  destruct (invite_on_record rs R x d Hd)
    as (l & res & boards' & d' & Hl & -> & Hg & Hl' & Hframe & _).
  simpl.
  assert (d' !! "owner" = d !! "owner") as Hown by (by apply Hframe).
  assert (∀ v, v ∈ (if bool_decide (Board.str_or_null x ∈ l) then l
                    else l ++ [Board.str_or_null x])
               ↔ v ∈ l ∨ v = Board.str_or_null x) as Hmem.
  { intros v. case_bool_decide as Hin.
    - split; [by left | by intros [?| ->]].
    - rewrite elem_of_app, list_elem_of_singleton. done. }
  split.
  - intros (d0 & u & l0 & Hd0 & Hu & Hl0 & Hq).
    rewrite Hg in Hd0. injection Hd0 as <-.
    rewrite Hl' in Hl0. injection Hl0 as <-.
    destruct Hq as [->|[Hin|Heq]%Hmem].
    + left. exists d, (Some email), l. split_and!; [done|congruence|done|by left].
    + left. exists d, u, l. split_and!; [done|congruence|done|by right].
    + right. destruct x as [s|]; simpl in Heq; congruence.
  - intros [(d0 & u & l0 & Hd0 & Hu & Hl0 & Hq)| ->].
    + rewrite Hd in Hd0. injection Hd0 as <-.
      rewrite Hl in Hl0. injection Hl0 as <-.
      eexists d', u, _. split_and!; [done|congruence|exact Hl'|].
      destruct Hq as [?|Hin]; [by left|]. right. apply Hmem. by left.
    + destruct (run_origin rs d) as (_ & body & _ & _ & _ & Hu).
      { by apply (getBoard_member _ _ R (run_well_formed rs)). }
      eexists d', (Board.userEmail body), _.
      split_and!; [done|congruence|exact Hl'|].
      right. apply Hmem. by right.
Qed.

Lemma invite_lists_for_invitee_witness :
  Board.getBoard "r1" Scenario.after_first_save = Some Scenario.first_record ∧
  lists "c@x.com" "r1"
    (run ([Save "r1" Scenario.first_save 1] ++ [Invite Scenario.invitation])).
Proof.
  assert (Board.getBoard "r1" Scenario.after_first_save
          = Some Scenario.first_record) as Hd by (vm_compute; reflexivity).
  split; [exact Hd|].
  apply (invite_lists_for_invitee [Save "r1" Scenario.first_save 1] "r1"
           (Some "c@x.com") "c@x.com" Scenario.first_record Hd).
  by right.
Defined.

(** X10. After a delete the room is listed for nobody: no record of any
    listing carries its [roomId]. *)
Theorem deleted_room_is_listed_for_nobody
    (rs : list request) (R email : string) :
  Forall (λ p : document, p !! "roomId" ≠ Some (VStr R))
         (allBoards email (run (rs ++ [Delete R]))).
Proof.
  apply Forall_forall. intros p Hp Hroom.
  assert (lists email R (run (rs ++ [Delete R]))) as Hlists by (by exists p).
  apply lists_iff in Hlists as (d & _ & _ & Hd & _).
  rewrite run_snoc in Hd. simpl in Hd.
  by rewrite (delete_absent (run rs) R (run_well_formed rs)) in Hd.
Qed.

End listing.

(** * User profiles *)

Section users.
Import Store.
Implicit Types (c users : collection) (d : document).

Lemma matches_self f v d : d !! f = Some v → matches f v d = true.
Proof. unfold matches. intros ->. by rewrite bool_decide_true. Qed.

(** A field that holds a string or [null] answers an equality filter by
    plain comparison. *)
Lemma matches_scalar f v e d :
  d !! f = Some (Board.str_or_null e) →
  matches f v d = bool_decide (Board.str_or_null e = v).
Proof. unfold matches. intros ->. destruct e; simpl; by rewrite orb_false_r. Qed.

(** The document a sync leaves where the filter found one. *)
Lemma sync_existing user now c i d :
  find_first "email" (Board.str_or_null (Users.email user)) c = Some (i, d) →
  let d' := <["lastLogin" := VDate now]>
              (<["photoURL" := Board.str_or_null (Users.photoURL user)]>
                 (<["email" := Board.str_or_null (Users.email user)]>
                    (<["name" := Board.str_or_null (Users.name user)]> d))) in
  Users.sync user now c =
    Resolved ({| matchedCount := 1;
                 modifiedCount := if bool_decide (d' = d) then 0 else 1;
                 upsertedCount := 0 |}, <[i := d']> c)
  ∧ find_first "email" (Board.str_or_null (Users.email user)) (<[i := d']> c)
    = Some (i, d').
Proof.
  intros Hf d'. split.
  - unfold Users.sync, updateOne. rewrite Hf. done.
  - apply find_first_replace with d; [done|].
    apply matches_self. unfold d'. by simplify_map_eq.
Qed.

(** The document a sync creates where the filter found none. *)
Lemma sync_fresh user now c :
  find_first "email" (Board.str_or_null (Users.email user)) c = None →
  let d' := <["lastLogin" := VDate now]>
              (<["photoURL" := Board.str_or_null (Users.photoURL user)]>
                 (<["email" := Board.str_or_null (Users.email user)]>
                    (<["name" := Board.str_or_null (Users.name user)]>
                       {["email" := Board.str_or_null (Users.email user)]}))) in
  Users.sync user now c =
    Resolved ({| matchedCount := 0; modifiedCount := 0; upsertedCount := 1 |},
              c ++ [d'])
  ∧ find_first "email" (Board.str_or_null (Users.email user)) (c ++ [d'])
    = Some (length c, d').
Proof.
  intros Hf d'. split.
  - unfold Users.sync, updateOne. rewrite Hf. done.
  - apply find_first_append; [done|].
    apply matches_self. unfold d'. by simplify_map_eq.
Qed.

Lemma users_handle_ok c r :
  Users.users_ok c → Users.users_ok (Users.handle c r).
Proof.
  intros [Hok Hnd]. destruct r as [user now]. unfold Users.handle. simpl.
  destruct (find_first "email" (Board.str_or_null (Users.email user)) c)
    as [[i d]|] eqn:Hf.
  - destruct (sync_existing user now c i d Hf) as [-> _]. simpl.
    apply find_first_Some in Hf as (Hi & Hm & _).
    destruct (Forall_lookup_1 _ _ _ _ Hok Hi) as [e He].
    rewrite (matches_scalar _ _ e) in Hm by done.
    apply bool_decide_eq_true in Hm. split.
    + apply Forall_insert; [done|]. exists (Users.email user).
      by simplify_map_eq.
    + rewrite list_fmap_insert, list_insert_id; [done|].
      rewrite list_lookup_fmap, Hi. simpl.
      rewrite !lookup_insert_ne, lookup_insert_eq by done. by rewrite He, Hm.
  - destruct (sync_fresh user now c Hf) as [-> _]. simpl. split.
    + apply Forall_app. split; [done|]. constructor; [|constructor].
      exists (Users.email user). by simplify_map_eq.
    + rewrite fmap_app. apply NoDup_app. split_and!; [done| |apply NoDup_singleton].
      intros o (d & -> & Hd)%list_elem_of_fmap Hin.
      apply list_elem_of_singleton in Hin. simplify_map_eq.
      apply find_first_None in Hf. rewrite Forall_forall in Hf.
      apply (Hf d Hd). by apply matches_self.
Qed.

Lemma users_run_snoc rs r : Users.run (rs ++ [r]) = Users.handle (Users.run rs) r.
Proof. unfold Users.run. apply foldl_snoc. Qed.

Lemma users_run_ok rs : Users.users_ok (Users.run rs).
Proof.
  induction rs as [|r rs IH] using rev_ind.
  - split; [constructor | simpl; constructor].
  - rewrite users_run_snoc. by apply users_handle_ok.
Qed.

(** X11. Every sync resolves, whatever fields the request carries, and the
    profile found afterwards under the request's email (under [null] when
    it sent none) holds the request's name, email and photo and the time
    of the call.  Where no profile answered the email one is appended;
    where one did it is updated in place and keeps its other fields. *)
Theorem sync_upserts_profile
    (user : Users.SyncBody) (now : Z) (users : collection) :
  ∃ res users' d',
    Users.sync user now users = Resolved (res, users') ∧
    findOne "email" (Board.str_or_null (Users.email user)) users' = Some d' ∧
    d' !! "name" = Some (Board.str_or_null (Users.name user)) ∧
    d' !! "email" = Some (Board.str_or_null (Users.email user)) ∧
    d' !! "photoURL" = Some (Board.str_or_null (Users.photoURL user)) ∧
    d' !! "lastLogin" = Some (VDate now) ∧
    match findOne "email" (Board.str_or_null (Users.email user)) users with
    | None => upsertedCount res = 1 ∧ users' = users ++ [d']
    | Some d =>
        matchedCount res = 1 ∧ upsertedCount res = 0 ∧
        (∀ f, f ∉ ["name"; "email"; "photoURL"; "lastLogin"] →
              d' !! f = d !! f) ∧
        ∃ i, users !! i = Some d ∧ users' = <[i := d']> users
    end.
Proof.
  unfold findOne at 2.
  destruct (find_first "email" (Board.str_or_null (Users.email user)) users)
    as [[i d]|] eqn:Hf; simpl.
  - destruct (sync_existing user now users i d Hf) as [Hs Hf'].
    eexists _, _, _. split; [exact Hs|]. unfold findOne. rewrite Hf'. simpl.
    split_and!; try by simplify_map_eq.
    + intros f Hnot. rewrite !lookup_insert_ne; [done|..];
        intros <-; apply Hnot; apply (bool_decide_unpack _); vm_compute;
        exact I.
    + exists i. by apply find_first_Some in Hf as (? & _).
  - destruct (sync_fresh user now users Hf) as [Hs Hf'].
    eexists _, _, _. split; [exact Hs|]. unfold findOne. rewrite Hf'. simpl.
    split_and!; by simplify_map_eq.
Qed.

(** X12. In a collection reached by syncs no two profiles have the same
    [email]; the requests that send no email all share the one profile
    whose [email] is [null]. *)
Theorem one_profile_per_email
    (rs : list (Users.SyncBody * Z)) (i j : nat) (d1 d2 : document) :
  Users.run rs !! i = Some d1 → Users.run rs !! j = Some d2 →
  d1 !! "email" = d2 !! "email" →
  i = j ∧ ∃ e, d1 !! "email" = Some (Board.str_or_null e).
Proof.
  intros Hi Hj Heq. destruct (users_run_ok rs) as [Hok Hnd]. split.
  - eapply NoDup_lookup; [exact Hnd|..]; rewrite list_lookup_fmap.
    + by rewrite Hi.
    + rewrite Hj. simpl. by rewrite Heq.
  - by apply (Forall_lookup_1 _ _ _ _ Hok Hi).
Qed.

Lemma one_profile_per_email_witness :
  Users.run [(Profiles.ann, 1%Z)] !! 0 = Some Profiles.ann_profile ∧
  0 = 0 ∧ ∃ e, Profiles.ann_profile !! "email" = Some (Board.str_or_null e).
Proof.
  assert (Users.run [(Profiles.ann, 1%Z)] !! 0 = Some Profiles.ann_profile) as H0
    by (vm_compute; reflexivity).
  split; [exact H0|].
  apply (one_profile_per_email [(Profiles.ann, 1%Z)] 0 0
           Profiles.ann_profile Profiles.ann_profile H0 H0).
  reflexivity.
Defined.

(** X13. In a collection reached by syncs, a sync leaves the profile found
    under any other email as it was. *)
Theorem sync_leaves_other_profiles_alone
    (rs : list (Users.SyncBody * Z)) (user : Users.SyncBody) (now : Z)
    (other : option string) :
  other ≠ Users.email user →
  findOne "email" (Board.str_or_null other) (Users.run (rs ++ [(user, now)]))
  = findOne "email" (Board.str_or_null other) (Users.run rs).
Proof.
  intros Hne. rewrite users_run_snoc. unfold Users.handle. simpl.
  destruct (users_run_ok rs) as [Hok _].
  assert (Board.str_or_null (Users.email user) ≠ Board.str_or_null other) as Hv.
  { intros Heq. apply str_or_null_inj in Heq. congruence. }
  destruct (find_first "email" (Board.str_or_null (Users.email user))
              (Users.run rs)) as [[i d]|] eqn:Hf.
  - destruct (sync_existing user now (Users.run rs) i d Hf) as [-> _]. simpl.
    apply find_first_Some in Hf as (Hi & Hm & _).
    destruct (Forall_lookup_1 _ _ _ _ Hok Hi) as [e He].
    rewrite (matches_scalar _ _ e) in Hm by done.
    apply bool_decide_eq_true in Hm.
    apply findOne_replace_other.
    + intros d0 Hd0. rewrite Hi in Hd0. injection Hd0 as <-.
      rewrite (matches_scalar _ _ e) by done. rewrite bool_decide_false; congruence.
    + rewrite (matches_scalar _ _ (Users.email user)) by (by simplify_map_eq).
      by rewrite bool_decide_false.
  - destruct (sync_fresh user now (Users.run rs) Hf) as [-> _]. simpl.
    apply findOne_append_other.
    rewrite (matches_scalar _ _ (Users.email user)) by (by simplify_map_eq).
    by rewrite bool_decide_false.
Qed.

Lemma sync_leaves_other_profiles_alone_witness :
  Some "a@x.com" ≠ Users.email Profiles.bob ∧
  findOne "email" (VStr "a@x.com")
    (Users.run ([(Profiles.ann, 1%Z)] ++ [(Profiles.bob, 2%Z)]))
  = findOne "email" (VStr "a@x.com") (Users.run [(Profiles.ann, 1%Z)]).
Proof.
  assert (Some "a@x.com" ≠ Users.email Profiles.bob) as Hne by discriminate.
  split; [exact Hne|].
  by apply (sync_leaves_other_profiles_alone [(Profiles.ann, 1%Z)] Profiles.bob 2
              (Some "a@x.com")).
Defined.

(** X14. Two syncs with the same email, or both without one, end in one
    profile: the second adds no record and its name, photo and time replace
    those of the first. *)
Theorem later_sync_overwrites_profile
    (rs : list (Users.SyncBody * Z)) (u1 u2 : Users.SyncBody) (t1 t2 : Z) :
  Users.email u1 = Users.email u2 →
  ∃ d, findOne "email" (Board.str_or_null (Users.email u2))
         (Users.run (rs ++ [(u1, t1); (u2, t2)])) = Some d ∧
       d !! "name" = Some (Board.str_or_null (Users.name u2)) ∧
       d !! "photoURL" = Some (Board.str_or_null (Users.photoURL u2)) ∧
       d !! "lastLogin" = Some (VDate t2) ∧
       length (Users.run (rs ++ [(u1, t1); (u2, t2)]))
       = length (Users.run (rs ++ [(u1, t1)])).
Proof.
  intros Heq.
  replace (rs ++ [(u1, t1); (u2, t2)]) with ((rs ++ [(u1, t1)]) ++ [(u2, t2)])
    by (by rewrite <- app_assoc).
  rewrite (users_run_snoc (rs ++ [(u1, t1)])).
  set (c1 := Users.run (rs ++ [(u1, t1)])).
  assert (is_Some (find_first "email" (Board.str_or_null (Users.email u2)) c1))
    as [[i d] Hf].
  { unfold c1. rewrite users_run_snoc. unfold Users.handle. simpl.
    rewrite <- Heq.
    destruct (find_first "email" (Board.str_or_null (Users.email u1))
                (Users.run rs)) as [[i d]|] eqn:Hf.
    - destruct (sync_existing u1 t1 (Users.run rs) i d Hf) as [-> Hf1]. simpl.
      rewrite Hf1. eauto.
    - destruct (sync_fresh u1 t1 (Users.run rs) Hf) as [-> Hf1]. simpl.
      rewrite Hf1. eauto. }
  unfold Users.handle. simpl.
  destruct (sync_existing u2 t2 c1 i d Hf) as [-> Hf']. simpl.
  eexists. unfold findOne. rewrite Hf'. simpl.
  split_and!; [done|by simplify_map_eq..|apply length_insert].
Qed.

Lemma later_sync_overwrites_profile_witness :
  Users.email Profiles.ann = Users.email Profiles.ann_renamed ∧
  ∃ d, findOne "email" (VStr "a@x.com")
         (Users.run ([] ++ [(Profiles.ann, 1%Z); (Profiles.ann_renamed, 2%Z)]))
       = Some d ∧
       d !! "name" = Some (VStr "Ann B.") ∧
       d !! "photoURL" = Some VNull ∧
       d !! "lastLogin" = Some (VDate 2) ∧
       length (Users.run ([] ++ [(Profiles.ann, 1%Z); (Profiles.ann_renamed, 2%Z)]))
       = length (Users.run ([] ++ [(Profiles.ann, 1%Z)])).
Proof.
  split; [reflexivity|].
  by apply (later_sync_overwrites_profile [] Profiles.ann Profiles.ann_renamed 1 2).
Defined.

End users.

(** * Further properties of the live session *)

Section session_more.
Import Session.
Implicit Types (st : io) (c s room : string) (p : packet).

(** What a socket has been written after a [mouse-move]. *)
Lemma received_mouse_move st s roomId pointer button user writable c :
  received c (mouse_move s roomId pointer button user writable st)
  = if bool_decide (c ∈ membersOf roomId st ∧ c ≠ s ∧ (c ∉ membersOf s st)
                    ∧ writable c = true)
    then received c st ++ [ReceiveMouse pointer button s user]
    else received c st.
Proof.
  unfold mouse_move.
  rewrite received_emit by apply NoDup_filter, NoDup_elements.
  apply (f_equal (λ b : bool, if b then _ else _)).
  apply bool_decide_ext. unfold to.
  rewrite list_elem_of_filter, elem_of_elements, elem_of_difference,
    elem_of_union, elem_of_singleton.
  split.
  - intros (Hw & Hin & Hex). split_and!; [done| | |done];
      intros ?; apply Hex; auto.
  - intros (Hin & Hne & Hout & Hw). split_and!; [done..|]. by intros [?|?].
Qed.

(** X15. When socket [s] sends [mouse-move] for a room, the sockets
    written one more packet, [receive-mouse] with the pointer, button and
    user sent and the id of [s], are those of the room that are not [s],
    are not in the room named by the id of [s], and whose transport is
    writable.  A socket whose transport is not writable loses the packet
    without trace; [s], the sockets in the room named by its id and the
    sockets outside the room are written nothing.  Room membership is
    untouched. *)
Theorem mouse_move_reaches_the_writable
    (st : io) (s roomId : string) (pointer button user : value)
    (writable : string → bool) :
  let st' := mouse_move s roomId pointer button user writable st in
  (∀ c, c ∈ membersOf roomId st → c ≠ s → c ∉ membersOf s st →
        writable c = true →
        received c st'
        = received c st ++ [ReceiveMouse pointer button s user]) ∧
  (∀ c, writable c = false → received c st' = received c st) ∧
  (∀ c, c ∉ membersOf roomId st → received c st' = received c st) ∧
  (∀ c, c ∈ membersOf s st → received c st' = received c st) ∧
  received s st' = received s st ∧
  rooms st' = rooms st.
Proof.
  intros st'. split_and!.
  - intros c Hin Hne Hout Hw. unfold st'. rewrite received_mouse_move.
    by rewrite bool_decide_true.
  - intros c Hw. unfold st'. rewrite received_mouse_move.
    rewrite bool_decide_false; [done|]. intros (_ & _ & _ & ?). congruence.
  - intros c Hnotin. unfold st'. rewrite received_mouse_move.
    rewrite bool_decide_false; [done|]. by intros (? & _).
  - intros c Hex. unfold st'. rewrite received_mouse_move.
    rewrite bool_decide_false; [done|]. by intros (_ & _ & ? & _).
  - unfold st'. rewrite received_mouse_move.
    rewrite bool_decide_false; [done|]. by intros (_ & ? & _).
  - done.
Qed.

Lemma mouse_move_reaches_the_writable_witness :
  ("B" ∈ membersOf "r1" Scenario.two_in_room ∧ "B" ≠ "A" ∧
   "B" ∉ membersOf "A" Scenario.two_in_room) ∧
  received "B"
    (mouse_move "A" "r1" (VNum 3) (VStr "down") (VStr "Ann") (λ _, true)
       Scenario.two_in_room)
  = received "B" Scenario.two_in_room
    ++ [ReceiveMouse (VNum 3) (VStr "down") "A" (VStr "Ann")].
Proof.
  assert ("B" ∈ membersOf "r1" Scenario.two_in_room) as Hin.
  { apply (bool_decide_unpack _). vm_compute. exact I. }
  assert ("B" ≠ "A") as Hne by discriminate.
  assert ("B" ∉ membersOf "A" Scenario.two_in_room) as Hout.
  { apply (bool_decide_unpack _). vm_compute. exact I. }
  split; [by split_and!|].
  destruct (mouse_move_reaches_the_writable Scenario.two_in_room "A" "r1"
              (VNum 3) (VStr "down") (VStr "Ann") (λ _, true)) as (Hothers & _).
  by apply Hothers.
Defined.

(** X16. Joining a room is idempotent and takes no socket out of any
    room.  A socket that joins a second room stays in the first and is
    still written the first room's drawings, unless the second room is the
    one named by the sender's id: a socket that joins the room named by
    another socket's id is written none of that socket's drawings any
    more, in whatever room they are sent. *)
Theorem join_room_keeps_earlier_rooms (st : io) (c room2 : string) :
  join_room c room2 (join_room c room2 st) = join_room c room2 st ∧
  (∀ room c', c' ∈ membersOf room st →
              c' ∈ membersOf room (join_room c room2 st)) ∧
  (∀ room1 s data_elements,
     c ∈ membersOf room1 st → c ≠ s → c ∉ membersOf s st → room2 ≠ s →
     received c (drawing_update s room1 data_elements (join_room c room2 st))
     = received c st ++ [ReceiveDrawing data_elements]) ∧
  (∀ room1 data_elements,
     received c
       (drawing_update room2 room1 data_elements (join_room c room2 st))
     = received c st).
Proof.
  assert (∀ room c', c' ∈ membersOf room st →
                     c' ∈ membersOf room (join_room c room2 st)) as Hkeep.
  { intros room c' Hin. unfold join_room. rewrite membersOf_join.
    case_bool_decide as Hr; [subst|done]. by apply elem_of_union_r. }
  split_and!; [|done| |].
  - unfold join_room, join. simpl. f_equal.
    rewrite insert_insert_eq. f_equal.
    unfold membersOf at 1. simpl. rewrite lookup_insert_eq. simpl.
    apply leibniz_equiv. rewrite (assoc_L (∪)), (idemp_L (∪)). done.
  - intros room1 s data_elements Hin Hne Hout Hroom.
    rewrite received_after_drawing_update.
    rewrite bool_decide_true; [by rewrite received_join|].
    split_and!; [by apply Hkeep|done|].
    unfold join_room. rewrite membersOf_join.
    by rewrite bool_decide_false by done.
  - intros room1 data_elements. rewrite received_after_drawing_update.
    rewrite bool_decide_false; [by rewrite received_join|].
    intros (_ & _ & Hout). apply Hout.
    unfold join_room. rewrite membersOf_join, bool_decide_true by done.
    apply elem_of_union_l, elem_of_singleton. done.
Qed.

Lemma join_room_keeps_earlier_rooms_witness :
  ("B" ∈ membersOf "r1" Scenario.two_in_room ∧ "B" ≠ "A" ∧
   ("B" ∉ membersOf "A" Scenario.two_in_room) ∧ "r2" ≠ "A") ∧
  received "B"
    (drawing_update "A" "r1" (VArr [])
       (join_room "B" "r2" Scenario.two_in_room))
  = received "B" Scenario.two_in_room ++ [ReceiveDrawing (VArr [])].
Proof.
  assert ("B" ∈ membersOf "r1" Scenario.two_in_room) as Hin.
  { apply (bool_decide_unpack _). vm_compute. exact I. }
  assert ("B" ≠ "A") as Hne by discriminate.
  assert ("B" ∉ membersOf "A" Scenario.two_in_room) as Hout.
  { apply (bool_decide_unpack _). vm_compute. exact I. }
  assert ("r2" ≠ "A") as Hroom by discriminate.
  split; [by split_and!|].
  destruct (join_room_keeps_earlier_rooms Scenario.two_in_room "B" "r2")
    as (_ & _ & Hstill & _).
  by apply Hstill.
Defined.

(** X17. Packets reach a socket in the order the server handled the
    events: of two drawing updates, by the same or by different senders,
    a socket that both broadcasts reach (it is in both rooms, is neither
    sender, and is in the room named by neither sender's id) is written
    the earlier one first. *)
Theorem drawings_arrive_in_order
    (st : io) (c s1 s2 room1 room2 : string) (e1 e2 : value) :
  c ∈ membersOf room1 st → c ∈ membersOf room2 st → c ≠ s1 → c ≠ s2 →
  c ∉ membersOf s1 st → c ∉ membersOf s2 st →
  received c (drawing_update s2 room2 e2 (drawing_update s1 room1 e1 st))
  = received c st ++ [ReceiveDrawing e1; ReceiveDrawing e2].
Proof.
  intros H1 H2 Hne1 Hne2 Hout1 Hout2.
  rewrite (received_after_drawing_update (drawing_update s1 room1 e1 st)).
  rewrite bool_decide_true by (split_and!; done).
  rewrite received_after_drawing_update.
  rewrite bool_decide_true by done. by rewrite <- app_assoc.
Qed.

Lemma drawings_arrive_in_order_witness :
  ("B" ∈ membersOf "r1" Scenario.two_in_room ∧ "B" ≠ "A" ∧
   "B" ∉ membersOf "A" Scenario.two_in_room) ∧
  received "B"
    (drawing_update "A" "r1" (VArr [Scenario.shape1])
       (drawing_update "A" "r1" (VArr []) Scenario.two_in_room))
  = received "B" Scenario.two_in_room
    ++ [ReceiveDrawing (VArr []); ReceiveDrawing (VArr [Scenario.shape1])].
Proof.
  assert ("B" ∈ membersOf "r1" Scenario.two_in_room) as Hin.
  { apply (bool_decide_unpack _). vm_compute. exact I. }
  assert ("B" ≠ "A") as Hne by discriminate.
  assert ("B" ∉ membersOf "A" Scenario.two_in_room) as Hout.
  { apply (bool_decide_unpack _). vm_compute. exact I. }
  split; [by split_and!|].
  by apply (drawings_arrive_in_order Scenario.two_in_room "B" "A" "A" "r1" "r1").
Defined.

(** An event that does not put [c] into a room keeps [c] out of all rooms
    and writes nothing to it. *)
Lemma step_outsider st c e :
  (∀ room, c ∉ membersOf room st) → ¬ Traffic.enters c e →
  (∀ room, c ∉ membersOf room (Traffic.step st e)) ∧
  received c (Traffic.step st e) = received c st.
Proof.
  intros Hout Hne. destruct e as [c'|c' R|c' R els|c' R ptr btn usr w|c']; simpl in *.
  - split; [|done]. intros room. unfold connection. rewrite membersOf_join.
    case_bool_decide; [|done].
    rewrite elem_of_union, elem_of_singleton. intros [?|?]; [done|].
    by eapply Hout.
  - split; [|done]. intros room. unfold join_room. rewrite membersOf_join.
    case_bool_decide; [|done].
    rewrite elem_of_union, elem_of_singleton. intros [?|?]; [done|].
    by eapply Hout.
  - split; [exact Hout|]. rewrite received_after_drawing_update.
    rewrite bool_decide_false; [done|]. intros [? _]. by eapply Hout.
  - split; [exact Hout|]. rewrite received_mouse_move.
    rewrite bool_decide_false; [done|]. intros [? _]. by eapply Hout.
  - split; [|done]. intros room. unfold disconnect.
    rewrite membersOf_leaveAll, elem_of_difference. intros [? _].
    by eapply Hout.
Qed.

(** X18. Once the transport of a socket has closed, nothing more is written
    to it and it is in no room, whatever the other sockets do, as long as
    no event brings the same id back. *)
Theorem closed_socket_receives_nothing
    (st : io) (c : string) (es : list Traffic.event) :
  Forall (λ e, ¬ Traffic.enters c e) es →
  received c (foldl Traffic.step (disconnect c st) es) = received c st ∧
  ∀ room, c ∉ membersOf room (foldl Traffic.step (disconnect c st) es).
Proof.
  intros Hes.
  assert (∀ st0, (∀ room, c ∉ membersOf room st0) →
            received c (foldl Traffic.step st0 es) = received c st0 ∧
            ∀ room, c ∉ membersOf room (foldl Traffic.step st0 es)) as Hgen.
  { induction Hes as [|e es He _ IH]; intros st0 Hout; [done|]. simpl.
    destruct (step_outsider st0 c e Hout He) as [Hout' Hrecv].
    destruct (IH _ Hout') as [Hr Ho]. split; [congruence|done]. }
  apply (Hgen (disconnect c st)).
  intros room. unfold disconnect. rewrite membersOf_leaveAll.
  rewrite elem_of_difference, elem_of_singleton. by intros [_ ?].
Qed.

Lemma closed_socket_receives_nothing_witness :
  received "B"
    (foldl Traffic.step (disconnect "B" Scenario.two_in_room)
       [Traffic.DrawingUpdate "A" "r1" (VArr [Scenario.shape1])])
  = received "B" Scenario.two_in_room.
Proof.
  apply (closed_socket_receives_nothing Scenario.two_in_room "B"
           [Traffic.DrawingUpdate "A" "r1" (VArr [Scenario.shape1])]).
  constructor; [|constructor]. simpl. intros [].
Defined.

(** X19. Sending into a room that holds nobody but the sender, or that
    does not exist, changes nothing: no packet is written and no error is
    raised. *)
Theorem emit_into_empty_room_is_noop (st : io) (s roomId : string) :
  membersOf roomId st ⊆ {[s]} →
  (∀ data_elements, drawing_update s roomId data_elements st = st) ∧
  (∀ pointer button user writable,
     mouse_move s roomId pointer button user writable st = st).
Proof.
  intros Hsub.
  assert (to s roomId st = ∅) as Hto.
  { unfold to. apply leibniz_equiv. apply subseteq_empty_difference.
    etrans; [exact Hsub|]. apply union_subseteq_l. }
  split.
  - intros data_elements. unfold drawing_update. rewrite Hto, elements_empty.
    by destruct st.
  - intros pointer button user writable. unfold mouse_move.
    rewrite Hto, elements_empty. by destruct st.
Qed.

Lemma emit_into_empty_room_is_noop_witness :
  membersOf "nowhere" Scenario.two_in_room ⊆ {["A"]} ∧
  drawing_update "A" "nowhere" (VArr []) Scenario.two_in_room
  = Scenario.two_in_room.
Proof.
  assert (membersOf "nowhere" Scenario.two_in_room ⊆ {["A"]}) as Hsub.
  { apply (bool_decide_unpack _). vm_compute. exact I. }
  split; [exact Hsub|].
  by apply (emit_into_empty_room_is_noop Scenario.two_in_room "A" "nowhere").
Defined.

(** What one event adds to what a socket has received: nothing, or one
    packet; a [receive-mouse] packet added names another socket. *)
Lemma step_received st c e :
  received c (Traffic.step st e) = received c st ∨
  (∃ els, received c (Traffic.step st e) = received c st ++ [ReceiveDrawing els]) ∨
  (∃ ptr btn s usr, s ≠ c ∧
     received c (Traffic.step st e)
     = received c st ++ [ReceiveMouse ptr btn s usr]).
Proof.
  destruct e as [c'|c' R|c' R els|c' R ptr btn usr w|c']; simpl;
    try (by left).
  - rewrite received_after_drawing_update. case_bool_decide; [|by left].
    right; left. by exists els.
  - rewrite received_mouse_move. case_bool_decide as Hc; [|by left].
    right; right. exists ptr, btn, c', usr. split; [|done].
    destruct Hc as (_ & Hne & _). congruence.
Qed.

(** X20. Whatever the sockets do from server start, a [receive-mouse]
    packet written to a socket never carries that socket's own id: nobody
    is sent its own pointer. *)
Theorem no_socket_gets_its_own_pointer
    (es : list Traffic.event) (c : string)
    (pointer button : value) (socketId : string) (user : value) :
  ReceiveMouse pointer button socketId user ∈ received c (Traffic.run es) →
  socketId ≠ c.
Proof.
  induction es as [|e es IH] using rev_ind.
  - unfold Traffic.run, received, start. simpl. rewrite lookup_empty. simpl.
    by intros ?%elem_of_nil.
  - unfold Traffic.run in *. rewrite foldl_snoc.
    destruct (step_received (foldl Traffic.step start es) c e)
      as [->|[[els ->]|(ptr & btn & s & usr & Hne & ->)]]; [done|..].
    + intros [?|Hin]%elem_of_app; [by apply IH|].
      by apply list_elem_of_singleton in Hin.
    + intros [?|Hin]%elem_of_app; [by apply IH|].
      apply list_elem_of_singleton in Hin. congruence.
Qed.

Lemma no_socket_gets_its_own_pointer_witness :
  ReceiveMouse (VNum 3) (VStr "down") "A" (VStr "Ann")
    ∈ received "B"
        (Traffic.run [Traffic.Connect "A"; Traffic.Connect "B";
                      Traffic.JoinRoom "A" "r1"; Traffic.JoinRoom "B" "r1";
                      Traffic.MouseMove "A" "r1" (VNum 3) (VStr "down")
                        (VStr "Ann") (λ _, true)])
  ∧ "A" ≠ "B".
Proof.
  assert (ReceiveMouse (VNum 3) (VStr "down") "A" (VStr "Ann")
    ∈ received "B"
        (Traffic.run [Traffic.Connect "A"; Traffic.Connect "B";
                      Traffic.JoinRoom "A" "r1"; Traffic.JoinRoom "B" "r1";
                      Traffic.MouseMove "A" "r1" (VNum 3) (VStr "down")
                        (VStr "Ann") (λ _, true)])) as Hin.
  { vm_compute. apply elem_of_cons. by left. }
  split; [exact Hin|].
  exact (no_socket_gets_its_own_pointer _ _ _ _ _ _ Hin).
Defined.

End session_more.

(** * Generated content *)

(** ** Removing code fences and trimming *)

Section cleaning.
Import Generate.
Implicit Types (s t r : text) (c u : N).

Lemma starts_with_spec p s : starts_with p s = true ↔ ∃ r, s = p ++ r.
Proof.
  unfold starts_with. rewrite bool_decide_eq_true. split.
  - intros Hp. exists (drop (length p) s). by rewrite <- Hp at 1; rewrite take_drop.
  - intros [r ->]. by rewrite take_app_length.
Qed.

Lemma occurs_spec p s : occurs p s = true ↔ ∃ a b, s = a ++ p ++ b.
Proof.
  induction s as [|c s IH]; simpl.
  - rewrite orb_false_r, starts_with_spec. split.
    + intros [r Hr]. by exists [], r.
    + intros (a & b & Hab). destruct a; [by exists b|done].
  - rewrite orb_true_iff, starts_with_spec, IH. split.
    + intros [[r Hr]|(a & b & ->)]; [by exists [], r | by exists (c :: a), b].
    + intros (a & b & Hab). destruct a as [|c' a]; [left; by exists b|].
      right. injection Hab as -> ->. by exists a, b.
Qed.

Lemma replace_from_drop k s : replace_from k s = replace_fences (drop k s).
Proof.
  revert k. induction s as [|c s IH]; intros [|k]; try done. simpl. apply IH.
Qed.

Lemma replace_fences_cons c rest :
  replace_fences (c :: rest)
  = if starts_with json_fence (c :: rest) then replace_fences (drop 6 rest)
    else if starts_with fence (c :: rest) then replace_fences (drop 2 rest)
    else c :: replace_fences rest.
Proof.
  unfold replace_fences at 1. simpl. by rewrite !replace_from_drop.
Qed.

Lemma starts_with_fence s :
  starts_with fence s = true ↔ ∃ r, s = 96%N :: 96%N :: 96%N :: r.
Proof. apply starts_with_spec. Qed.

Lemma json_fence_is_fence s :
  starts_with json_fence s = true → starts_with fence s = true.
Proof.
  rewrite starts_with_spec, starts_with_fence. intros [r ->]. by eexists.
Qed.

(** A backtick at the head of the result was at the head of the input. *)
Lemma replace_fences_head s r :
  replace_fences s = 96%N :: r →
  ∃ r', s = 96%N :: r' ∧ (starts_with fence s = true ∨ replace_fences r' = r).
Proof.
  destruct s as [|c rest]; [done|]. rewrite replace_fences_cons.
  destruct (starts_with json_fence (c :: rest)) eqn:Hj.
  - intros _. apply json_fence_is_fence in Hj as Hf.
    apply starts_with_fence in Hf as [r' Hr']. injection Hr' as -> ->.
    eexists. split; [done|]. left. apply starts_with_fence. by eexists.
  - destruct (starts_with fence (c :: rest)) eqn:Hf.
    + intros _. apply starts_with_fence in Hf as [r' Hr']. injection Hr' as -> ->.
      eexists. split; [done|]. by left.
    + intros [= -> Hr]. exists rest. split; [done|]. by right.
Qed.

Lemma kept_head_no_fence c rest :
  starts_with fence (c :: rest) = false →
  starts_with fence (c :: replace_fences rest) = false.
Proof.
  intros Hno. apply not_true_is_false. intros Hyes. apply not_true_iff_false in Hno.
  apply Hno. apply starts_with_fence in Hyes as [r2 Hr]. injection Hr as -> Hr.
  apply starts_with_fence.
  apply replace_fences_head in Hr as (r1 & -> & [Hf|Hr1]).
  - apply starts_with_fence in Hf as [r' Hr']. injection Hr' as ->. by eexists.
  - apply replace_fences_head in Hr1 as (r0 & -> & _). by eexists.
Qed.

Lemma replace_fences_no_fence s : occurs fence (replace_fences s) = false.
Proof.
  remember (length s) as n eqn:Hn. revert s Hn.
  induction n as [n IH] using lt_wf_ind. intros [|c rest] Hn; [done|].
  simpl in Hn. rewrite replace_fences_cons.
  destruct (starts_with json_fence (c :: rest)) eqn:Hj.
  - eapply IH; [|done]. rewrite length_drop. lia.
  - destruct (starts_with fence (c :: rest)) eqn:Hf.
    + eapply IH; [|done]. rewrite length_drop. lia.
    + simpl. rewrite (kept_head_no_fence _ _ Hf). simpl.
      eapply IH; [|done]. lia.
Qed.

Lemma replace_fences_clean s : occurs fence s = false → replace_fences s = s.
Proof.
  induction s as [|c rest IH]; [done|]. simpl.
  intros [Hf Hrest]%orb_false_iff. rewrite replace_fences_cons.
  destruct (starts_with json_fence (c :: rest)) eqn:Hj.
  - apply json_fence_is_fence in Hj. congruence.
  - rewrite Hf. by rewrite IH.
Qed.

Lemma replace_fences_pass l r :
  Forall (λ u, u ≠ 96%N) l → replace_fences (l ++ r) = l ++ replace_fences r.
Proof.
  induction 1 as [|c l Hc _ IH]; [done|]. simpl. rewrite replace_fences_cons.
  assert (starts_with fence (c :: l ++ r) = false) as Hf.
  { apply not_true_is_false. intros [r' Hr']%starts_with_fence. congruence. }
  destruct (starts_with json_fence (c :: l ++ r)) eqn:Hj.
  - apply json_fence_is_fence in Hj. congruence.
  - by rewrite Hf, IH.
Qed.

(** [trimStart] drops a run of white space and nothing else. *)
Lemma trimStart_split s :
  ∃ ws, s = ws ++ trimStart s ∧ Forall (λ u, is_space u = true) ws.
Proof.
  induction s as [|c s (ws & Hs & Hws)]; [by exists []|]. simpl.
  destruct (is_space c) eqn:Hc.
  - exists (c :: ws). split; [by rewrite Hs at 1 | by constructor].
  - by exists [].
Qed.

Lemma trimStart_spaces ws s :
  Forall (λ u, is_space u = true) ws → trimStart (ws ++ s) = trimStart s.
Proof. induction 1 as [|c ws Hc _ IH]; [done|]. simpl. by rewrite Hc. Qed.

Lemma trimStart_starts_clean s : starts_clean (trimStart s).
Proof.
  induction s as [|c s IH]; [done|]. simpl.
  destruct (is_space c) eqn:Hc; [done|]. simpl. done.
Qed.

Lemma trimStart_fixed s : starts_clean s → trimStart s = s.
Proof. destruct s as [|c s]; [done|]. simpl. by intros ->. Qed.

Lemma trimEnd_split s :
  ∃ ws, s = trimEnd s ++ ws ∧ Forall (λ u, is_space u = true) ws.
Proof.
  unfold trimEnd. destruct (trimStart_split (reverse s)) as (ws & Hs & Hws).
  exists (reverse ws). split; [|by apply Forall_reverse].
  rewrite <- reverse_app, <- Hs. by rewrite reverse_involutive.
Qed.

Lemma trimEnd_spaces s ws :
  Forall (λ u, is_space u = true) ws → trimEnd (s ++ ws) = trimEnd s.
Proof.
  intros Hws. unfold trimEnd. rewrite reverse_app.
  rewrite trimStart_spaces; [done | by apply Forall_reverse].
Qed.

Lemma trimEnd_idemp s : trimEnd (trimEnd s) = trimEnd s.
Proof.
  unfold trimEnd. rewrite reverse_involutive.
  by rewrite (trimStart_fixed _ (trimStart_starts_clean _)).
Qed.

Lemma trimEnd_starts_clean s : starts_clean s → starts_clean (trimEnd s).
Proof.
  intros Hs. destruct (trimEnd_split s) as (ws & Heq & _).
  destruct (trimEnd s) as [|c r] eqn:Ht; [done|].
  rewrite Heq in Hs. exact Hs.
Qed.

Lemma trim_idemp s : trim (trim s) = trim s.
Proof.
  unfold trim.
  rewrite (trimStart_fixed (trimEnd (trimStart s))).
  - apply trimEnd_idemp.
  - apply trimEnd_starts_clean, trimStart_starts_clean.
Qed.

Lemma occurs_app_r p a s : occurs p (a ++ s) = false → occurs p s = false.
Proof.
  intros Hno. apply not_true_is_false. intros (x & y & ->)%occurs_spec.
  apply not_true_iff_false in Hno. apply Hno, occurs_spec.
  exists (a ++ x), y. by rewrite <- app_assoc.
Qed.

Lemma occurs_app_l p s b : occurs p (s ++ b) = false → occurs p s = false.
Proof.
  intros Hno. apply not_true_is_false. intros (x & y & ->)%occurs_spec.
  apply not_true_iff_false in Hno. apply Hno, occurs_spec.
  exists x, (y ++ b). by rewrite <- !app_assoc.
Qed.

Lemma trim_no_occurrence p s : occurs p s = false → occurs p (trim s) = false.
Proof.
  intros Hno. unfold trim.
  destruct (trimStart_split s) as (ws1 & Hs1 & _).
  destruct (trimEnd_split (trimStart s)) as (ws2 & Hs2 & _).
  rewrite Hs1, Hs2 in Hno. by apply occurs_app_r, occurs_app_l in Hno.
Qed.

Lemma space_is_no_backtick u : is_space u = true → u ≠ 96%N.
Proof. intros Hu ->. vm_compute in Hu. done. Qed.

(** [cleanJson] leaves no code fence. *)
Lemma cleanJson_no_fence t : occurs fence (cleanJson t) = false.
Proof. apply trim_no_occurrence, replace_fences_no_fence. Qed.

Lemma cleanJson_clean t : occurs fence t = false → cleanJson t = trim t.
Proof. intros Ht. unfold cleanJson. by rewrite replace_fences_clean. Qed.

Lemma cleanJson_idemp t : cleanJson (cleanJson t) = cleanJson t.
Proof.
  rewrite (cleanJson_clean (cleanJson t)) by apply cleanJson_no_fence.
  apply trim_idemp.
Qed.

Lemma cleanJson_unwrap ws1 body ws2 :
  Forall (λ u, is_space u = true) ws1 → Forall (λ u, is_space u = true) ws2 →
  Forall (λ u, u ≠ 96%N) body → trim body = body →
  cleanJson (json_fence ++ ws1 ++ body ++ ws2 ++ fence) = body.
Proof.
  intros Hws1 Hws2 Hbody Htrim. unfold cleanJson.
  assert (replace_fences (json_fence ++ ws1 ++ body ++ ws2 ++ fence)
          = ws1 ++ body ++ ws2) as ->.
  { change (json_fence ++ ws1 ++ body ++ ws2 ++ fence)
      with (96%N :: (drop 0 ([96; 96; 106; 115; 111; 110]%N)
                     ++ ws1 ++ body ++ ws2 ++ fence)).
    rewrite replace_fences_cons.
    rewrite (proj2 (starts_with_spec json_fence _)) by (by eexists).
    change (drop 6 _) with (ws1 ++ body ++ ws2 ++ fence).
    rewrite !app_assoc. rewrite replace_fences_pass.
    - change (replace_fences fence) with (@nil N). by rewrite app_nil_r.
    - rewrite !Forall_app. split_and!; [|done|];
        (eapply Forall_impl; [eassumption|]); apply space_is_no_backtick. }
  unfold trim. rewrite trimStart_spaces by done.
  assert (starts_clean body) as Hclean.
  { rewrite <- Htrim. apply trimEnd_starts_clean, trimStart_starts_clean. }
  assert (trimEnd body = body) as Hend.
  { rewrite <- Htrim at 2. unfold trim. by rewrite (trimStart_fixed body). }
  destruct body as [|c body].
  - simpl. rewrite <- (app_nil_r ws2). by rewrite trimStart_spaces.
  - rewrite (trimStart_fixed ((c :: body) ++ ws2)) by done.
    by rewrite trimEnd_spaces.
Qed.

(** A text without a fence in front of a closing fence: only the closing
    fence goes, also where the text ends in backticks that run into it. *)
Lemma replace_fences_before_fence body ws :
  occurs fence body = false → Forall (λ u, u ≠ 96%N) ws →
  replace_fences (body ++ ws ++ fence) = body ++ ws.
Proof.
  intros Hbody Hws. induction body as [|c b IH].
  - simpl. rewrite replace_fences_pass by done.
    change (replace_fences fence) with (@nil N). by rewrite app_nil_r.
  - simpl in Hbody. apply orb_false_iff in Hbody as [Hhead Hrest].
    specialize (IH Hrest).
    change ((c :: b) ++ ws ++ fence) with (c :: (b ++ ws ++ fence)).
    rewrite replace_fences_cons.
    destruct (starts_with fence (c :: b ++ ws ++ fence)) eqn:Hf.
    + apply starts_with_fence in Hf as [r Hr].
      assert (fence = [96; 96; 96]%N) as Hfence by reflexivity.
      rewrite Hfence in Hr.
      assert (∀ w ws', ws = w :: ws' → w ≠ 96%N) as Hw.
      { intros w ws' ->. by apply Forall_cons_1 in Hws as [? _]. }
      destruct b as [|x [|y b2]].
      * destruct ws as [|w ws']; simpl in Hr.
        -- injection Hr as -> _. vm_compute. reflexivity.
        -- injection Hr as -> Hw' _. by destruct (Hw w ws').
      * destruct ws as [|w ws']; simpl in Hr.
        -- injection Hr as -> -> _. vm_compute. reflexivity.
        -- injection Hr as -> -> Hw' _. by destruct (Hw w ws').
      * simpl in Hr. injection Hr as -> -> -> _.
        apply not_true_iff_false in Hhead. destruct Hhead.
        apply starts_with_fence. by eexists.
    + destruct (starts_with json_fence (c :: b ++ ws ++ fence)) eqn:Hj.
      * apply json_fence_is_fence in Hj. congruence.
      * simpl. by rewrite IH.
Qed.

Lemma cleanJson_unwrap_fence_free ws1 body ws2 :
  Forall (λ u, is_space u = true) ws1 → Forall (λ u, is_space u = true) ws2 →
  occurs fence body = false → trim body = body →
  cleanJson (json_fence ++ ws1 ++ body ++ ws2 ++ fence) = body.
Proof.
  intros Hws1 Hws2 Hbody Htrim. unfold cleanJson.
  assert (replace_fences (json_fence ++ ws1 ++ body ++ ws2 ++ fence)
          = ws1 ++ body ++ ws2) as ->.
  { change (json_fence ++ ws1 ++ body ++ ws2 ++ fence)
      with (96%N :: (drop 0 ([96; 96; 106; 115; 111; 110]%N)
                     ++ ws1 ++ body ++ ws2 ++ fence)).
    rewrite replace_fences_cons.
    rewrite (proj2 (starts_with_spec json_fence _)) by (by eexists).
    change (drop 6 _) with (ws1 ++ body ++ ws2 ++ fence).
    rewrite replace_fences_pass.
    - rewrite replace_fences_before_fence; [done..|].
      eapply Forall_impl; [exact Hws2|]. apply space_is_no_backtick.
    - eapply Forall_impl; [exact Hws1|]. apply space_is_no_backtick. }
  unfold trim. rewrite trimStart_spaces by done.
  assert (starts_clean body) as Hclean.
  { rewrite <- Htrim. apply trimEnd_starts_clean, trimStart_starts_clean. }
  assert (trimEnd body = body) as Hend.
  { rewrite <- Htrim at 2. unfold trim. by rewrite (trimStart_fixed body). }
  destruct body as [|c body].
  - simpl. rewrite <- (app_nil_r ws2). by rewrite trimStart_spaces.
  - rewrite (trimStart_fixed ((c :: body) ++ ws2)) by done.
    by rewrite trimEnd_spaces.
Qed.

End cleaning.

(** ** What the generate handlers answer *)

Section generated.
Import Generate.
Implicit Types (t body : text) (v parsed : value).

(** X21. Whatever the model answers, the cleaned text contains no code
    fence: three backticks in a row never survive, also not where removing
    a fence brings backticks together. *)
Theorem cleanJson_leaves_no_fence (t : text) :
  occurs fence (cleanJson t) = false ∧ occurs fence (replace_fences t) = false.
Proof. split; [apply cleanJson_no_fence | apply replace_fences_no_fence]. Qed.

(** X22. A text without a code fence is only trimmed, and cleaning a
    cleaned text changes nothing. *)
Theorem cleanJson_only_trims_clean_text (t : text) :
  (occurs fence t = false → cleanJson t = trim t) ∧
  cleanJson (cleanJson t) = cleanJson t.
Proof. split; [apply cleanJson_clean | apply cleanJson_idemp]. Qed.

Lemma cleanJson_only_trims_clean_text_witness :
  occurs fence (of_string " [1, 2] ") = false ∧
  cleanJson (of_string " [1, 2] ") = trim (of_string " [1, 2] ").
Proof.
  assert (occurs fence (of_string " [1, 2] ") = false) as Hclean
    by (vm_compute; reflexivity).
  split; [exact Hclean|].
  by apply (cleanJson_only_trims_clean_text (of_string " [1, 2] ")).
Defined.

(** X23. An answer wrapped the usual way, a [json] fence, white space, a
    body without backticks that neither starts nor ends with white space,
    white space, a closing fence, is cleaned to exactly the body. *)
Theorem cleanJson_unwraps_fenced_block (ws1 body ws2 : text) :
  Forall (λ u, is_space u = true) ws1 → Forall (λ u, is_space u = true) ws2 →
  Forall (λ u, u ≠ 96%N) body → trim body = body →
  cleanJson (json_fence ++ ws1 ++ body ++ ws2 ++ fence) = body.
Proof. apply cleanJson_unwrap. Qed.

Lemma cleanJson_unwraps_fenced_block_witness :
  cleanJson fenced_answer = of_string "[1, 2]".
Proof.
  apply (cleanJson_unwraps_fenced_block [10%N] (of_string "[1, 2]") [10%N]).
  - repeat constructor.
  - repeat constructor.
  - apply (bool_decide_unpack _). vm_compute. exact I.
  - vm_compute. reflexivity.
Defined.

(** X24. The elements sent back are the parsed value itself when it is an
    array; otherwise the [elements] property of a parsed object when that
    property counts as true, array or not; otherwise, for everything but
    [null], the empty array.  Only [null] gives an error.  So the answer
    is not always an array. *)
Theorem elements_of_cases (parsed : value) :
  (∀ l, parsed = VArr l → elements_of parsed = Some (VArr l)) ∧
  (elements_of parsed = None ↔ parsed = VNull) ∧
  (∀ kvs v, parsed = VObj kvs → property "elements" kvs = Some v →
            truthy v = true → elements_of parsed = Some v) ∧
  ((∀ l, parsed ≠ VArr l) → parsed ≠ VNull →
   (∀ kvs v, parsed = VObj kvs → property "elements" kvs = Some v →
             truthy v = false) →
   elements_of parsed = Some (VArr [])) ∧
  (∀ v, elements_of parsed = Some v →
        (∃ l, parsed = VArr l ∧ v = VArr l) ∨
        (∃ kvs, parsed = VObj kvs ∧ property "elements" kvs = Some v ∧
                truthy v = true) ∨
        v = VArr []).
Proof.
  split_and!.
  - by intros l ->.
  - destruct parsed as [| | | | | |kvs]; simpl; try (split; done).
    destruct (property "elements" kvs); split; done.
  - intros kvs v -> Hp Hv. simpl. by rewrite Hp, Hv.
  - intros Harr Hnull Hobj.
    destruct parsed as [| | | | |l|kvs]; simpl; try done.
    + by destruct (Harr l).
    + destruct (property "elements" kvs) as [w|] eqn:Hp; [|done].
      by rewrite (Hobj kvs w eq_refl Hp).
  - intros v. destruct parsed as [| | | | |l|kvs]; simpl;
      try (intros [= <-]; right; right; reflexivity); try done.
    + intros [= <-]. left. by exists l.
    + destruct (property "elements" kvs) as [w|] eqn:Hp;
        [|intros [= <-]; right; right; reflexivity].
      destruct (truthy w) eqn:Hw; intros [= <-];
        [|right; right; reflexivity].
      right; left. by exists kvs.
Qed.

Lemma elements_of_cases_witness :
  elements_of (VObj [("elements", VStr "none")]) = Some (VStr "none") ∧
  elements_of (VObj [("shapes", VArr [VNum 1])]) = Some (VArr []).
Proof.
  split.
  - destruct (elements_of_cases (VObj [("elements", VStr "none")]))
      as (_ & _ & Hobj & _).
    by apply (Hobj [("elements", VStr "none")] (VStr "none")).
  - destruct (elements_of_cases (VObj [("shapes", VArr [VNum 1])]))
      as (_ & _ & _ & Hempty & _).
    apply Hempty; [done|done|].
    intros kvs v [= <-]. vm_compute. discriminate.
Defined.

(** X25. Both handlers answer [400] exactly when the prompt is absent,
    [null], [false], [0] or the empty string, and then whatever the model
    would have said plays no part; every other prompt, blank strings
    included, goes to the model. *)
Theorem prompt_required_iff_missing
    (generateContent : value → option text) (JSON_parse : text → option value)
    (prompt : option value) :
  (missing prompt = true ↔
   prompt ∈ [None; Some VNull; Some (VBool false); Some (VNum 0);
             Some (VStr "")]) ∧
  (generate generateContent JSON_parse prompt = PromptRequired
   ↔ missing prompt = true) ∧
  (chatbot_generate generateContent prompt = PromptRequired
   ↔ missing prompt = true).
Proof.
  split_and!.
  - rewrite !elem_of_cons, elem_of_nil. split.
    + destruct prompt as [[|b|n|s|t|l|kvs]|]; simpl; intros Hm;
        try discriminate Hm.
      * right; by left.
      * destruct b; [discriminate Hm|]. right; right; by left.
      * rewrite negb_involutive in Hm. apply bool_decide_eq_true in Hm.
        subst n. right; right; right; by left.
      * rewrite negb_involutive in Hm. apply bool_decide_eq_true in Hm.
        subst s. right; right; right; right; by left.
      * by left.
    + intros [->|[->|[->|[->|[->|[]]]]]]; reflexivity.
  - unfold generate, missing. destruct prompt as [p|]; [|done].
    destruct (truthy p); simpl; [|done].
    destruct (generateContent p) as [t|]; [|done].
    destruct (JSON_parse (cleanJson t)) as [parsed|]; [|done].
    destruct (elements_of parsed); done.
  - unfold chatbot_generate, missing. destruct prompt as [p|]; [|done].
    destruct (truthy p); simpl; [|done].
    destruct (generateContent p); done.
Qed.

(** X26. For a prompt that goes to the model: when the model answers with
    a [json] fence, white space, a body, white space and a closing fence,
    where the body contains no code fence and neither starts nor ends with
    white space, and the parser reads the body as an array, [/generate]
    answers [200] with that array.  When the call throws, the cleaned text
    does not parse, or it parses to [null], the answer is [500]. *)
Theorem generate_sends_parsed_array
    (generateContent : value → option text) (JSON_parse : text → option value)
    (p : value) :
  truthy p = true →
  (∀ ws1 body ws2 l,
     generateContent p = Some (json_fence ++ ws1 ++ body ++ ws2 ++ fence) →
     Forall (λ u, is_space u = true) ws1 → Forall (λ u, is_space u = true) ws2 →
     occurs fence body = false → trim body = body →
     JSON_parse body = Some (VArr l) →
     generate generateContent JSON_parse (Some p) = Elements (VArr l)) ∧
  (generateContent p = None →
   generate generateContent JSON_parse (Some p) = Failed) ∧
  (∀ t, generateContent p = Some t →
        JSON_parse (cleanJson t) = None ∨ JSON_parse (cleanJson t) = Some VNull →
        generate generateContent JSON_parse (Some p) = Failed).
Proof.
  intros Hp. unfold generate. rewrite Hp. split_and!.
  - intros ws1 body ws2 l -> Hws1 Hws2 Hbody Htrim Hparse.
    rewrite cleanJson_unwrap_fence_free by done. by rewrite Hparse.
  - by intros ->.
  - intros t -> [-> | ->]; done.
Qed.

Lemma generate_sends_parsed_array_witness :
  truthy (VStr "a house") = true ∧
  generate (always fenced_answer)
    (reads (of_string "[1, 2]") (VArr [VNum 1; VNum 2]))
    (Some (VStr "a house"))
  = Elements (VArr [VNum 1; VNum 2]).
Proof.
  assert (truthy (VStr "a house") = true) as Hp by reflexivity.
  split; [exact Hp|].
  destruct (generate_sends_parsed_array (always fenced_answer)
              (reads (of_string "[1, 2]") (VArr [VNum 1; VNum 2]))
              (VStr "a house") Hp) as (Harray & _).
  apply (Harray [10%N] (of_string "[1, 2]") [10%N]).
  - reflexivity.
  - repeat constructor.
  - repeat constructor.
  - vm_compute. reflexivity.
  - vm_compute. reflexivity.
  - vm_compute. reflexivity.
Defined.

End generated.
